(** * ShaRP: the estimator facade of [sharp/base.py]

    A shallow embedding of the class [ShaRP] (constructor parameters, [fit],
    [individual], [feature], [all], [pairwise], [pairwise_set]) together with
    the properties of its aggregation layer.

    Modelling conventions.
    - Python [int]s are [Z]; influence values (Python floats) are exact
      rationals [Q], so rounding is not part of the model; [np.mean] of an
      empty list is [NaN].
    - A two-dimensional array is its shape's last component together with its
      rows; a one-dimensional array is the list of its entries.
    - The estimator object [self] is threaded explicitly: every method is a
      computation [M A = ShaRP -> result A * ShaRP]; an exception leaves the
      object as it was when the exception was raised.
    - The collaborators imported from [sharp.utils] ([check_inputs],
      [check_feature_names], [check_measure]) and scikit-learn's
      [check_random_state] are parameters of the development; the callable
      returned by [check_measure] is a function of its keyword arguments and
      of the generator state, and returns the influence and the new generator
      state. *)

From Stdlib Require Import String ZArith QArith Bool Lia List Permutation.
Import ListNotations.
Local Open Scope Z_scope.

Set Implicit Arguments.

(** ** Exceptions and results *)

Inductive exn : Type :=
| ConfigurationError
| ValidationError
| ComputationError
| TypeError
| IndexError
| ValueError
| AttributeError.

Inductive result (A : Type) : Type :=
| Ok (a : A)
| Raise (e : exn).

Arguments Ok {A} a.
Arguments Raise {A} e.

(** ** Arrays *)

Definition ndarray1 := list Q.

(** [shape1] is [X.shape[1]]; [X.shape[0]] is the number of stored rows. *)
Record ndarray2 : Type := mk_ndarray2 {
  shape1 : nat;
  data : list ndarray1
}.

Definition shape0 (X : ndarray2) : nat := length (data X).

(** [a.reshape(1, -1)] for a one-dimensional [a]. *)
Definition reshape_row (a : ndarray1) : ndarray2 :=
  {| shape1 := length a; data := [a] |}.

(** [X[i]] for a Python int [i]: negative indices count from the end. *)
Definition getitem (X : ndarray2) (i : Z) : result ndarray1 :=
  let n := Z.of_nat (shape0 X) in
  if (- n <=? i) && (i <? n) then
    match nth_error (data X) (Z.to_nat (if i <? 0 then i + n else i)) with
    | Some r => Ok r
    | None => Raise IndexError
    end
  else Raise IndexError.

(** [X[l]] for a Python list of ints [l]: the selected rows, in order. *)
Fixpoint getitems (X : ndarray2) (l : list Z) : result (list ndarray1) :=
  match l with
  | [] => Ok []
  | i :: l' =>
      match getitem X i with
      | Raise e => Raise e
      | Ok r =>
          match getitems X l' with
          | Raise e => Raise e
          | Ok rs => Ok (r :: rs)
          end
      end
  end.

(** What a caller may pass for a sample: an int, a list of ints, a row or a
    table. *)
Inductive sample : Type :=
| SInt (i : Z)
| SList (l : list Z)
| SArr1 (a : ndarray1)
| SArr2 (a : ndarray2).

(** [range(n)] *)
Definition range (n : nat) : list Z := map Z.of_nat (seq 0 n).

(** ** Floats returned by [np.mean] *)

Inductive npfloat : Type :=
| NaN
| Fin (q : Q).

Definition Qsum (l : list Q) : Q := fold_right Qplus 0%Q l.

Definition np_mean (l : list Q) : npfloat :=
  match l with
  | [] => NaN
  | _ :: _ => Fin (Qsum l / inject_Z (Z.of_nat (length l)))%Q
  end.

(** ** Quantities of interest *)

Definition scorer := ndarray2 -> list Q.

Inductive qoi_variant : Type :=
| ScoreQoI
| RankQoI
| TopKQoI
| PairwiseQoI
| CustomQoI.

(** A resolved quantity of interest; [qoi_X] is its attribute [X]. *)
Record QoI : Type := mk_QoI {
  qoi_variant_of : qoi_variant;
  qoi_target_function : option scorer;
  qoi_X : ndarray2
}.

(** The constructor argument [qoi]: [None], a name, or a QoI object. *)
Inductive qoi_param : Type :=
| QoiNone
| QoiStr (name : string)
| QoiObj (q : QoI).

Definition qoi_of_name (name : string) : option qoi_variant :=
  if String.eqb name "score" then Some ScoreQoI
  else if String.eqb name "rank" then Some RankQoI
  else if String.eqb name "top-k" then Some TopKQoI
  else if String.eqb name "pairwise" then Some PairwiseQoI
  else None.

(** Modelled from the spec: [check_qoi] of [sharp.utils], whose source is
    missing.  A recognised name builds the named variant from the
    ranking function and the reference data; otherwise a supplied function is
    used as a custom payoff; with neither, [ConfigurationError]. *)
Definition check_qoi (name : string) (target_function : option scorer)
    (X : ndarray2) : result QoI :=
  match qoi_of_name name with
  | Some v => Ok (mk_QoI v target_function X)
  | None =>
      match target_function with
      | Some f => Ok (mk_QoI CustomQoI (Some f) X)
      | None => Raise ConfigurationError
      end
  end.

(** ** Keyword arguments *)

(** The keys of [**kwargs] that the methods read; [None] is an absent key.
    The key ["X"] of [pairwise] and [pairwise_set] is a separate argument of
    their models. *)
Record kwargs : Type := mk_kwargs {
  kw_set_cols_idx : option (list Z);
  kw_coalition_size : option Z;
  kw_sample_size : option Z;
  kw_verbose : option Z
}.

Definition no_kwargs : kwargs := mk_kwargs None None None None.

Definition with_verbose (v : Z) (kw : kwargs) : kwargs :=
  mk_kwargs (kw_set_cols_idx kw) (kw_coalition_size kw) (kw_sample_size kw) (Some v).

Definition with_sizes (sample_size coalition_size : Z) (kw : kwargs) : kwargs :=
  mk_kwargs (kw_set_cols_idx kw) (Some coalition_size) (Some sample_size) (kw_verbose kw).

(** The argument [feature] of the method [feature]: a name or an index. *)
Inductive feature_arg : Type :=
| FStr (name : string)
| FInt (i : Z).

(** [names.index(name)] *)
Fixpoint list_index (names : list string) (name : string) : result Z :=
  match names with
  | [] => Raise ValueError
  | n :: names' =>
      if String.eqb n name then Ok 0
      else match list_index names' name with
           | Ok i => Ok (i + 1)
           | Raise e => Raise e
           end
  end.

(** ** The task scheduler *)

(** The order in which a worker pool runs the [n] tasks of one loop. *)
Record scheduler : Type := mk_scheduler {
  order : nat -> list nat;
  order_perm : forall n, Permutation (order n) (seq 0 n)
}.

Definition sequential : scheduler := mk_scheduler (seq 0) (fun n => Permutation_refl _).

Definition reversed : scheduler :=
  mk_scheduler (fun n => rev (seq 0 n)) (fun n => Permutation_sym (Permutation_rev _)).

Fixpoint assoc {A : Type} (i : nat) (l : list (nat * A)) : option A :=
  match l with
  | [] => None
  | (j, a) :: l' => if Nat.eqb i j then Some a else assoc i l'
  end.

(** Results are put back by position, whatever the completion order. *)
Definition collect {A : Type} (n : nat) (done : list (nat * A)) : list A :=
  flat_map (fun i => match assoc i done with Some a => [a] | None => [] end) (seq 0 n).

Section Facade.

(** ** Collaborators *)

(** State of the random generator. *)
Variable RNG : Type.

(** Keyword arguments of a call of the resolved measure (all but [rng]). *)
Record measure_args : Type := mk_measure_args {
  m_row : sample;
  m_col_idx : Z;
  m_set_cols_idx : option (list Z);
  m_X : ndarray2;
  m_qoi : QoI;
  m_sample_size : Z;
  m_coalition_size : Z;
  m_replace : bool
}.

Definition measure_fn := measure_args -> RNG -> result Q * RNG.

Variable check_inputs :
  option ndarray2 -> option ndarray1 -> result (ndarray2 * option ndarray1).
Variable check_feature_names : ndarray2 -> list string.
Variable check_measure : string -> result measure_fn.

(** [check_random_state(seed)] for an int [seed]. *)
Variable seed_rng : Z -> RNG.

Variable sched : scheduler.

(** ** The estimator object *)

(** Arguments of [__init__]. *)
Record Params : Type := mk_Params {
  qoi : qoi_param;
  target_function : option scorer;
  measure : string;
  sample_size : option Z;
  coalition_size : option Z;
  replace : bool;
  random_state : option Z;
  n_jobs : Z;
  verbose : Z
}.

(** The object after [fit]. *)
Record ShaRP : Type := mk_ShaRP {
  params : Params;
  _X : option ndarray2;
  _y : option ndarray1;
  _rng : RNG;
  qoi_ : QoI;
  feature_names_ : list string;
  measure_ : measure_fn
}.

Definition set_rng (self : ShaRP) (g : RNG) : ShaRP :=
  mk_ShaRP (params self) (_X self) (_y self) g (qoi_ self)
    (feature_names_ self) (measure_ self).

(** ** Computations on the object *)

Definition M (A : Type) : Type := ShaRP -> result A * ShaRP.

Definition ret {A : Type} (a : A) : M A := fun self => (Ok a, self).

Definition bind {A B : Type} (c : M A) (k : A -> M B) : M B :=
  fun self =>
    match c self with
    | (Ok a, self') => k a self'
    | (Raise e, self') => (Raise e, self')
    end.

Definition raise {A : Type} (e : exn) : M A := fun self => (Raise e, self).

Definition lift {A : Type} (r : result A) : M A :=
  match r with
  | Ok a => ret a
  | Raise e => raise e
  end.

Definition get_self : M ShaRP := fun self => (Ok self, self).

Notation "x <- c ;; k" := (bind c (fun x => k))
  (at level 61, c at next level, right associativity).

(** A [for] loop appending one result per element. *)
Fixpoint for_each {T A : Type} (f : T -> M A) (l : list T) : M (list A) :=
  match l with
  | [] => ret []
  | t :: l' => a <- f t ;; rest <- for_each f l' ;; ret (a :: rest)
  end.

(** Runs the tasks in the order [ord], remembering each result's position. *)
Fixpoint run_tasks {A : Type} (tasks : list (M A)) (ord : list nat)
    : M (list (nat * A)) :=
  match ord with
  | [] => ret []
  | i :: ord' =>
      match nth_error tasks i with
      | None => run_tasks tasks ord'
      | Some t => a <- t ;; rest <- run_tasks tasks ord' ;; ret ((i, a) :: rest)
      end
  end.

Definition exec_order (n_jobs : Z) (n : nat) : list nat :=
  if n_jobs =? 1 then seq 0 n else order sched n.

(** Modelled from the spec: [parallel_loop] of [sharp.utils._parallelize],
    whose source is missing.  It maps [function] over [iterable] with
    [n_jobs] workers (1 = sequential); every task runs to completion on the
    shared object, tasks run in the scheduler's order, the first exception
    aborts the loop, results are reassembled by position, and progress
    reporting has no effect on them. *)
Definition parallel_loop {T A : Type} (function : T -> M A) (iterable : list T)
    (n_jobs progress_bar : Z) : M (list A) :=
  done <- run_tasks (map function iterable) (exec_order n_jobs (length iterable)) ;;
  ret (collect (length iterable) done).

(** [self.measure_(..., rng=self._rng)]: the generator is advanced in place. *)
Definition call_measure (args : measure_args) : M Q :=
  fun self =>
    let (r, g) := measure_ self args (_rng self) in
    (r, set_rng self g).

(** ** [fit] *)

(** [entropy] is the generator [check_random_state(None)] would return. *)
Definition check_random_state (seed : option Z) (entropy : RNG) : RNG :=
  match seed with
  | Some z => seed_rng z
  | None => entropy
  end.

Definition fit (p : Params) (X : ndarray2) (y : option ndarray1) (entropy : RNG)
    : result ShaRP :=
  match check_inputs (Some X) y with
  | Raise e => Raise e
  | Ok (X_, y_) =>
      let rng := check_random_state (random_state p) entropy in
      let qoi_resolved :=
        match qoi p with
        | QoiNone => check_qoi "rank" (target_function p) X_
        | QoiStr name => check_qoi name (target_function p) X_
        | QoiObj q => Ok q
        end in
      match qoi_resolved with
      | Raise e => Raise e
      | Ok q =>
          let names := check_feature_names X in
          match check_measure (measure p) with
          | Raise e => Raise e
          | Ok m => Ok (mk_ShaRP p (Some X_) y_ rng q names m)
          end
      end
  end.

(** ** [individual] *)

Definition individual (sample0 : sample) (X : option ndarray2)
    (y : option ndarray1) (kw : kwargs) : M (list Q) :=
  self <- get_self ;;
  let X := match X with None => Some (qoi_X (qoi_ self)) | Some _ => X end in
  Xy <- lift (check_inputs X y) ;;
  let X_ := fst Xy in
  let set_cols_idx := kw_set_cols_idx kw in
  let coalition_size :=
    match kw_coalition_size kw with
    | Some c => c
    | None =>
        match coalition_size (params self) with
        | Some c => c
        | None => Z.of_nat (shape1 X_) - 1
        end
    end in
  sample1 <- match sample0 with
             | SInt i => r <- lift (getitem X_ i) ;; ret (SArr1 r)
             | _ => ret sample0
             end ;;
  let sample_size :=
    match kw_sample_size kw with
    | Some n => n
    | None =>
        match sample_size (params self) with
        | Some n => n
        | None => Z.of_nat (shape0 X_)
        end
    end in
  let verbosity :=
    match kw_verbose kw with
    | Some v => v
    | None => verbose (params self)
    end in
  parallel_loop
    (fun col_idx =>
       self' <- get_self ;;
       call_measure
         (mk_measure_args sample1 col_idx set_cols_idx X_ (qoi_ self')
            sample_size coalition_size (replace (params self'))))
    (range (length (feature_names_ self)))
    (n_jobs (params self))
    verbosity.

(** ** [feature] *)

Definition feature (feat : feature_arg) (X : option ndarray2)
    (y : option ndarray1) (kw : kwargs) : M npfloat :=
  self <- get_self ;;
  Xy <- lift (check_inputs X y) ;;
  let X_ := fst Xy in
  col_idx <- match feat with
             | FStr name => lift (list_index (feature_names_ self) name)
             | FInt i => ret i
             end ;;
  let set_cols_idx := kw_set_cols_idx kw in
  let coalition_size :=
    match kw_coalition_size kw with
    | Some c => c
    | None =>
        match coalition_size (params self) with
        | Some c => c
        | None => Z.of_nat (shape1 X_) - 1
        end
    end in
  let sample_size :=
    match kw_sample_size kw with
    | Some n => n
    | None =>
        match sample_size (params self) with
        | Some n => n
        | None => Z.of_nat (shape0 X_)
        end
    end in
  influences <- for_each
    (fun sample_idx =>
       row <- lift (getitem X_ sample_idx) ;;
       self' <- get_self ;;
       call_measure
         (mk_measure_args (SArr1 row) col_idx set_cols_idx X_ (qoi_ self')
            sample_size coalition_size (replace (params self'))))
    (range (shape0 X_)) ;;
  ret (np_mean influences).

(** ** [all] *)

Definition all (X : option ndarray2) (y : option ndarray1) (kw : kwargs)
    : M (list (list Q)) :=
  self <- get_self ;;
  X_ref <- match _X self with
           | Some r => ret r
           | None => Xy0 <- lift (check_inputs X None) ;; ret (fst Xy0)
           end ;;
  Xy <- lift (check_inputs X y) ;;
  let X_ := fst Xy in
  parallel_loop
    (fun sample_idx =>
       row <- lift (getitem X_ sample_idx) ;;
       match kw_verbose kw with
       | Some _ => raise TypeError
       | None => individual (SArr1 row) (Some X_ref) None (with_verbose 0 kw)
       end)
    (range (shape0 X_))
    (n_jobs (params self))
    (verbose (params self)).

(** ** [pairwise] *)

(** [X[sample] if type(sample) in [int, list] else sample] *)
Definition resolve_sample (X : ndarray2) (s : sample) : result sample :=
  match s with
  | SInt i =>
      match getitem X i with
      | Ok r => Ok (SArr1 r)
      | Raise e => Raise e
      end
  | SList l =>
      match getitems X l with
      | Ok rs => Ok (SArr2 (mk_ndarray2 (shape1 X) rs))
      | Raise e => Raise e
      end
  | _ => Ok s
  end.

(** [s.reshape(1, -1) if s.ndim == 1 else s] *)
Definition as_table (s : sample) : result ndarray2 :=
  match s with
  | SArr1 a => Ok (reshape_row a)
  | SArr2 a => Ok a
  | _ => Raise AttributeError
  end.

(** [s.shape[-1]] *)
Definition shape_last (s : sample) : result Z :=
  match s with
  | SArr1 a => Ok (Z.of_nat (length a))
  | SArr2 a => Ok (Z.of_nat (shape1 a))
  | _ => Raise AttributeError
  end.

Definition pairwise (sample1 sample2 : sample) (kwX : option ndarray2)
    (kw : kwargs) : M (list Q) :=
  self <- get_self ;;
  sample1 <- match kwX with
             | Some X => lift (resolve_sample X sample1)
             | None => ret sample1
             end ;;
  sample2 <- match kwX with
             | Some X => lift (resolve_sample X sample2)
             | None => ret sample2
             end ;;
  sample2 <- lift (as_table sample2) ;;
  let sample_size :=
    match kw_sample_size kw with
    | Some n => n
    | None =>
        match sample_size (params self) with
        | Some n =>
            if n >? Z.of_nat (shape0 sample2) then Z.of_nat (shape0 sample2) else n
        | None => Z.of_nat (shape0 sample2)
        end
    end in
  coalition_size <-
    match kw_coalition_size kw with
    | Some c => ret c
    | None =>
        match coalition_size (params self) with
        | Some c => ret c
        | None => d <- lift (shape_last sample1) ;; ret (d - 1)
        end
    end ;;
  match kwX, kw_sample_size kw, kw_coalition_size kw with
  | None, None, None =>
      individual sample1 (Some sample2) None (with_sizes sample_size coalition_size kw)
  | _, _, _ => raise TypeError
  end.

(** ** [pairwise_set] *)

Definition pairwise_set (samples1 samples2 : list sample) (kwX : option ndarray2)
    (kw : kwargs) : M (list (list Q)) :=
  self <- get_self ;;
  parallel_loop
    (fun samples : sample * sample =>
       match kw_verbose kw with
       | Some _ => raise TypeError
       | None => pairwise (fst samples) (snd samples) kwX (with_verbose 0 kw)
       end)
    (combine samples1 samples2)
    (n_jobs (params self))
    (verbose (params self)).

(** ** Vocabulary of the properties *)

(** [self'] differs from [self] at most in the state of its generator. *)
Definition frame (self self' : ShaRP) : Prop :=
  params self' = params self /\
  _X self' = _X self /\
  _y self' = _y self /\
  qoi_ self' = qoi_ self /\
  feature_names_ self' = feature_names_ self /\
  measure_ self' = measure_ self.

(** A computation that touches nothing but the generator. *)
Definition preserving {A : Type} (c : M A) : Prop :=
  forall self, frame self (snd (c self)).

(** The resolved measure never raises. *)
Definition measure_total (self : ShaRP) : Prop :=
  forall args g, exists v g', measure_ self args g = (Ok v, g').

(** The resolved measure ignores the generator: its value is [mu args]. *)
Definition measure_pure (self : ShaRP) (mu : measure_args -> Q) : Prop :=
  forall args g, measure_ self args g = (Ok (mu args), g).


(** A size used by a call: the per-call value, else the session's, else the
    default. *)
Definition resolved (override session : option Z) (default : Z) : Z :=
  match override with
  | Some v => v
  | None =>
      match session with
      | Some v => v
      | None => default
      end
  end.

(** The reference set [individual] hands to [check_inputs]. *)
Definition reference_of (self : ShaRP) (X : option ndarray2) : option ndarray2 :=
  match X with
  | None => Some (qoi_X (qoi_ self))
  | Some _ => X
  end.

(** The row [individual] explains: an int selects a row of the reference. *)
Definition sample_row (X_ : ndarray2) (smp : sample) : result sample :=
  match smp with
  | SInt i =>
      match getitem X_ i with
      | Ok r => Ok (SArr1 r)
      | Raise e => Raise e
      end
  | _ => Ok smp
  end.

(** The arguments of the measure for the row [row], the validated reference
    [X_] and the column [col], with the sizes resolved against [X_]. *)
Definition call_args (self : ShaRP) (kw : kwargs) (row : sample)
    (X_ : ndarray2) (col : Z) : measure_args :=
  mk_measure_args row col (kw_set_cols_idx kw) X_ (qoi_ self)
    (resolved (kw_sample_size kw) (sample_size (params self)) (Z.of_nat (shape0 X_)))
    (resolved (kw_coalition_size kw) (coalition_size (params self))
       (Z.of_nat (shape1 X_) - 1))
    (replace (params self)).

(** The column [feature] asks the measure about. *)
Definition feature_col (self : ShaRP) (feat : feature_arg) : result Z :=
  match feat with
  | FStr name => list_index (feature_names_ self) name
  | FInt i => Ok i
  end.



(** The measure called on [args_list] from left to right, the generator
    handed from call to call. *)
Fixpoint measure_seq (m : measure_fn) (args_list : list measure_args) (g : RNG)
    : result (list Q) * RNG :=
  match args_list with
  | [] => (Ok [], g)
  | a :: rest =>
      match m a g with
      | (Raise e, g') => (Raise e, g')
      | (Ok v, g') =>
          match measure_seq m rest g' with
          | (Raise e, g'') => (Raise e, g'')
          | (Ok vs, g'') => (Ok (v :: vs), g'')
          end
      end
  end.


End Facade.

Definition is_array (s : sample) : Prop :=
  match s with
  | SArr1 _ | SArr2 _ => True
  | _ => False
  end.

(** Column [j] of a matrix of influences. *)
Definition column (j : nat) (rows : list (list Q)) : list Q :=
  map (fun r => nth j r 0%Q) rows.

(** The first [m] consecutive pieces of length [d] of a list: the rows of an
    [m]-by-[d] matrix stored row after row. *)
Fixpoint split_rows (m d : nat) (vs : list Q) : list (list Q) :=
  match m with
  | O => []
  | S m' => firstn d vs :: split_rows m' d (skipn d vs)
  end.

(** A sample given by position: an int or a list of ints. *)
Definition is_index (s : sample) : Prop :=
  match s with
  | SInt _ | SList _ => True
  | _ => False
  end.

(** * A small instance

    Collaborators, tables and sessions on which the properties below are
    exercised: validation is the identity on a given table, features are
    named [a], [b], ..., the generator state is a counter, and two measures
    are registered. *)

Module Example.

Definition check_inputs (X : option ndarray2) (y : option ndarray1)
    : result (ndarray2 * option ndarray1) :=
  match X with
  | Some x => Ok (x, y)
  | None => Raise ValidationError
  end.

Definition check_feature_names (X : ndarray2) : list string :=
  map (fun i => String (Ascii.ascii_of_nat (97 + i)) EmptyString) (seq 0 (shape1 X)).

Definition cell (row : sample) (col : Z) : Q :=
  match row with
  | SArr1 r => nth (Z.to_nat col) r 0%Q
  | _ => 0%Q
  end.

Definition column_mean (X : ndarray2) (col : Z) : Q :=
  match np_mean (map (fun r => nth (Z.to_nat col) r 0%Q) (data X)) with
  | Fin q => q
  | NaN => 0%Q
  end.

(** The value of the row in the column, less the reference column's mean. *)
Definition centred_value (a : measure_args) : Q :=
  (cell (m_row a) (m_col_idx a) - column_mean (m_X a) (m_col_idx a))%Q.

(** A measure that does not draw from the generator. *)
Definition centred : measure_fn Z := fun a g => (Ok (centred_value a), g).

(** A measure that draws once: the draw is added and the counter advances. *)
Definition jittered : measure_fn Z :=
  fun a g => (Ok (centred_value a + inject_Z g)%Q, g + 1).

Definition check_measure (name : string) : result (measure_fn Z) :=
  if String.eqb name "set" then Ok centred
  else if String.eqb name "shapley" then Ok jittered
  else Raise ConfigurationError.

Definition seed_rng (seed : Z) : Z := seed.

Definition X_fit : ndarray2 := mk_ndarray2 2 [[0; 1]; [2; 5]]%Q.

Definition X_new : ndarray2 := mk_ndarray2 2 [[4; 0]; [6; 2]]%Q.

Definition params_of (measure : string) (sample_size : option Z) (n_jobs : Z)
    : Params :=
  mk_Params QoiNone None measure sample_size None false (Some 7) n_jobs 0.

(** What [fit] returns on [X_fit] for these parameters (see [fit_session]). *)
Definition session_of (measure : string) (m : measure_fn Z)
    (sample_size : option Z) (n_jobs : Z) : ShaRP Z :=
  mk_ShaRP (params_of measure sample_size n_jobs) (Some X_fit) None 7
    (mk_QoI RankQoI None X_fit) ["a"; "b"]%string m.

Definition session : ShaRP Z := session_of "set" centred None 1.

Definition parallel_session : ShaRP Z := session_of "shapley" jittered None 2.

Definition sized_session : ShaRP Z := session_of "set" centred (Some 5) 1.

End Example.

(** * Properties *)

(** ** Lists, positions and arrays *)

Lemma assoc_In {A : Type} (i : nat) (l : list (nat * A)) (a : A) :
  assoc i l = Some a -> In (i, a) l.
Proof.
  induction l as [|[j b] l IH]; simpl; [discriminate|].
  destruct (Nat.eqb i j) eqn:E.
  - apply Nat.eqb_eq in E. intros [= ->]. left. now subst.
  - intros H. right. now apply IH.
Qed.

Lemma In_assoc {A : Type} (i : nat) (l : list (nat * A)) :
  In i (map fst l) -> assoc i l <> None.
Proof.
  induction l as [|[j b] l IH]; simpl; [tauto|].
  intros [E|H].
  - subst. now rewrite Nat.eqb_refl.
  - destruct (Nat.eqb i j); [discriminate|]. now apply IH.
Qed.

Lemma collect_assoc {A : Type} (done : list (nat * A)) (idx : list nat) :
  (forall i, In i idx -> assoc i done <> None) ->
  map Some (flat_map (fun i => match assoc i done with
                               | Some a => [a]
                               | None => []
                               end) idx)
  = map (fun i => assoc i done) idx.
Proof.
  induction idx as [|i idx IH]; simpl; intros H; [reflexivity|].
  rewrite map_app, IH by (intros; apply H; now right).
  destruct (assoc i done) eqn:E; [reflexivity|].
  exfalso. apply (H i); [now left|exact E].
Qed.

Lemma collect_length {A : Type} (n : nat) (done : list (nat * A)) :
  (forall i, (i < n)%nat -> assoc i done <> None) ->
  length (collect n done) = n.
Proof.
  intros H. unfold collect.
  rewrite <- (length_map Some), collect_assoc, length_map, length_seq; [reflexivity|].
  intros i Hi. apply in_seq in Hi. apply H. lia.
Qed.

Lemma collect_nth {A : Type} (n : nat) (done : list (nat * A)) (i : nat) (a : A) :
  (forall i, (i < n)%nat -> assoc i done <> None) ->
  nth_error (collect n done) i = Some a -> assoc i done = Some a.
Proof.
  intros H Hn.
  assert (Hlt : (i < n)%nat).
  { rewrite <- (@collect_length _ _ _ H). apply nth_error_Some. congruence. }
  apply (map_nth_error Some) in Hn.
  unfold collect in Hn. rewrite collect_assoc in Hn.
  - rewrite nth_error_map, nth_error_seq in Hn.
    destruct (Nat.ltb_spec i n); [|lia]. simpl in Hn. congruence.
  - intros j Hj. apply in_seq in Hj. apply H. lia.
Qed.

Lemma nth_error_ext_eq {A : Type} (l l' : list A) :
  length l = length l' ->
  (forall i a, nth_error l i = Some a -> nth_error l' i = Some a) ->
  l = l'.
Proof.
  revert l'. induction l as [|a l IH]; intros [|b l'] Hlen H; simpl in *;
    try discriminate; [reflexivity|].
  f_equal.
  - specialize (H 0%nat a eq_refl). simpl in H. congruence.
  - apply IH; [lia|]. intros i c Hi. exact (H (S i) c Hi).
Qed.

Lemma range_length (n : nat) : length (range n) = n.
Proof. unfold range. now rewrite length_map, length_seq. Qed.

Lemma range_nth (n i : nat) (z : Z) :
  nth_error (range n) i = Some z -> z = Z.of_nat i /\ (i < n)%nat.
Proof.
  unfold range. rewrite nth_error_map, nth_error_seq.
  destruct (Nat.ltb_spec i n); simpl; [|discriminate].
  intros [= <-]. split; [reflexivity|assumption].
Qed.

Lemma getitem_of_nat (X : ndarray2) (i : nat) (r : ndarray1) :
  nth_error (data X) i = Some r -> getitem X (Z.of_nat i) = Ok r.
Proof.
  intros H. unfold getitem.
  assert (Hlt : (i < shape0 X)%nat) by (apply nth_error_Some; congruence).
  replace (- Z.of_nat (shape0 X) <=? Z.of_nat i) with true by (symmetry; apply Z.leb_le; lia).
  replace (Z.of_nat i <? Z.of_nat (shape0 X)) with true by (symmetry; apply Z.ltb_lt; lia).
  replace (Z.of_nat i <? 0) with false by (symmetry; apply Z.ltb_ge; lia).
  simpl. now rewrite Nat2Z.id, H.
Qed.

Lemma getitem_range (X : ndarray2) (i : nat) (z : Z) :
  nth_error (range (shape0 X)) i = Some z ->
  exists r, nth_error (data X) i = Some r /\ getitem X z = Ok r.
Proof.
  intros H. apply range_nth in H as [-> Hlt].
  destruct (nth_error (data X) i) as [r|] eqn:E.
  - exists r. split; [reflexivity|]. now apply getitem_of_nat.
  - apply nth_error_None in E. unfold shape0 in Hlt. lia.
Qed.

Lemma np_mean_arithmetic (l : list Q) :
  l <> [] -> np_mean l = Fin (Qsum l / inject_Z (Z.of_nat (length l)))%Q.
Proof. destruct l; [congruence|reflexivity]. Qed.

Section Properties.

Variable RNG : Type.
Variable check_inputs :
  option ndarray2 -> option ndarray1 -> result (ndarray2 * option ndarray1).
Variable sched : scheduler.

Implicit Types (s self si sj sf : ShaRP RNG).

(** ** The frame relation *)

Lemma frame_refl s : frame s s.
Proof. unfold frame. tauto. Qed.

Lemma frame_trans s1 s2 s3 : frame s1 s2 -> frame s2 s3 -> frame s1 s3.
Proof. unfold frame. intuition congruence. Qed.

Lemma frame_sym s1 s2 : frame s1 s2 -> frame s2 s1.
Proof. unfold frame. intuition congruence. Qed.

Lemma frame_set_rng s g : frame s (set_rng s g).
Proof. unfold frame. simpl. tauto. Qed.

Lemma frame_measure_total s s' : frame s s' -> measure_total s -> measure_total s'.
Proof. intros (_ & _ & _ & _ & _ & E) H a g. rewrite E. apply H. Qed.

Lemma preserving_ret {A : Type} (a : A) : preserving (@ret RNG A a).
Proof. intros s. apply frame_refl. Qed.

Lemma preserving_raise {A : Type} (e : exn) : preserving (@raise RNG A e).
Proof. intros s. apply frame_refl. Qed.

Lemma preserving_lift {A : Type} (r : result A) : preserving (@lift RNG A r).
Proof. destruct r; [apply preserving_ret|apply preserving_raise]. Qed.

Lemma preserving_get_self : preserving (@get_self RNG).
Proof. intros s. apply frame_refl. Qed.

Lemma preserving_bind {A B : Type} (c : M RNG A) (k : A -> M RNG B) :
  preserving c -> (forall a, preserving (k a)) -> preserving (bind c k).
Proof.
  intros Hc Hk s. unfold bind. specialize (Hc s).
  destruct (c s) as [[a|e] s1]; simpl in *; [|exact Hc].
  eapply frame_trans; [exact Hc|apply Hk].
Qed.

Lemma preserving_call_measure (args : measure_args) :
  preserving (@call_measure RNG args).
Proof.
  intros s. unfold call_measure.
  destruct (measure_ s args (_rng s)) as [r g]. apply frame_set_rng.
Qed.

Lemma preserving_for_each {T A : Type} (f : T -> M RNG A) (l : list T) :
  (forall t, preserving (f t)) -> preserving (for_each f l).
Proof.
  intros Hf. induction l as [|t l IH]; simpl; [apply preserving_ret|].
  apply preserving_bind; [apply Hf|intros a].
  apply preserving_bind; [exact IH|intros rest]. apply preserving_ret.
Qed.

Lemma preserving_run_tasks {A : Type} (tasks : list (M RNG A)) (ord : list nat) :
  (forall t, In t tasks -> preserving t) -> preserving (run_tasks tasks ord).
Proof.
  intros Ht. induction ord as [|i ord IH]; simpl; [apply preserving_ret|].
  destruct (nth_error tasks i) as [t|] eqn:E; [|exact IH].
  apply preserving_bind; [apply Ht; eapply nth_error_In; eauto|intros a].
  apply preserving_bind; [exact IH|intros rest]. apply preserving_ret.
Qed.

Lemma preserving_parallel_loop {T A : Type} (f : T -> M RNG A) (l : list T)
    (n_jobs progress_bar : Z) :
  (forall t, preserving (f t)) ->
  preserving (parallel_loop sched f l n_jobs progress_bar).
Proof.
  intros Hf. unfold parallel_loop.
  apply preserving_bind; [|intros done; apply preserving_ret].
  apply preserving_run_tasks. intros t Ht.
  apply in_map_iff in Ht as (x & <- & _). apply Hf.
Qed.

Create HintDb preserve.

#[local] Hint Resolve preserving_ret preserving_raise preserving_lift
  preserving_get_self preserving_call_measure : preserve.

Ltac preserve :=
  repeat first
    [ apply preserving_parallel_loop; intros ?
    | apply preserving_for_each; intros ?
    | apply preserving_bind; [|intros ?]
    | solve [auto with preserve]
    | match goal with
      | |- preserving (match ?x with _ => _ end) => destruct x
      end ].

Lemma preserving_individual smp X y kw :
  @preserving RNG _ (individual check_inputs sched smp X y kw).
Proof. unfold individual. preserve. Qed.

Lemma preserving_feature feat X y kw :
  @preserving RNG _ (feature check_inputs feat X y kw).
Proof. unfold feature. preserve. Qed.

Lemma preserving_all X y kw :
  @preserving RNG _ (all check_inputs sched X y kw).
Proof. unfold all. preserve. Qed.

Lemma preserving_pairwise smp1 smp2 kwX kw :
  @preserving RNG _ (pairwise check_inputs sched smp1 smp2 kwX kw).
Proof. unfold pairwise. preserve. Qed.

Lemma preserving_pairwise_set l1 l2 kwX kw :
  @preserving RNG _ (pairwise_set check_inputs sched l1 l2 kwX kw).
Proof. unfold pairwise_set. preserve. Qed.

(** ** The task loop *)

Lemma exec_order_perm (n_jobs : Z) (n : nat) :
  Permutation (exec_order sched n_jobs n) (seq 0 n).
Proof.
  unfold exec_order. destruct (n_jobs =? 1); [apply Permutation_refl|apply order_perm].
Qed.

Lemma exec_order_lt (n_jobs : Z) (n i : nat) :
  In i (exec_order sched n_jobs n) <-> (i < n)%nat.
Proof.
  split; intros H.
  - apply (Permutation_in _ (exec_order_perm n_jobs n)) in H.
    apply in_seq in H. lia.
  - apply (Permutation_in _ (Permutation_sym (exec_order_perm n_jobs n))).
    apply in_seq. lia.
Qed.

Lemma run_tasks_spec {A : Type} (tasks : list (M RNG A)) s :
  (forall t, In t tasks -> preserving t) ->
  forall ord si done sf,
    frame s si ->
    (forall i, In i ord -> (i < length tasks)%nat) ->
    run_tasks tasks ord si = (Ok done, sf) ->
    map fst done = ord /\
    forall i a, In (i, a) done ->
      exists t sj, nth_error tasks i = Some t /\ frame s sj /\ fst (t sj) = Ok a.
Proof.
  intros Hp. induction ord as [|i ord IH]; simpl; intros si done sf Hf Hlt Hrun.
  - injection Hrun as <- <-. split; [reflexivity|]. intros i a [].
  - destruct (nth_error tasks i) as [t|] eqn:Et.
    2:{ apply nth_error_None in Et. specialize (Hlt i (or_introl eq_refl)). lia. }
    unfold bind in Hrun.
    destruct (t si) as [[a|e] s1] eqn:E1; [|discriminate].
    destruct (run_tasks tasks ord s1) as [[rest|e] s2] eqn:E2; [|discriminate].
    injection Hrun as <- <-.
    assert (Hf1 : frame s s1).
    { eapply frame_trans; [exact Hf|].
      generalize (Hp t (nth_error_In _ _ Et) si). now rewrite E1. }
    destruct (IH s1 rest s2 Hf1 (fun j Hj => Hlt j (or_intror Hj)) E2) as [Hm Hin].
    split; [simpl; now rewrite Hm|].
    intros j b [Hjb|Hjb].
    + injection Hjb as <- <-. exists t, si. rewrite E1. auto.
    + now apply Hin.
Qed.


(** Whatever the execution order, a loop that returns gives one result per
    task, the [i]-th being what the [i]-th task returned when it ran. *)
Lemma parallel_loop_spec {T A : Type} (f : T -> M RNG A) (l : list T)
    (n_jobs progress_bar : Z) s si vs sf :
  (forall t, preserving (f t)) ->
  frame s si ->
  parallel_loop sched f l n_jobs progress_bar si = (Ok vs, sf) ->
  length vs = length l /\
  forall i t v, nth_error l i = Some t -> nth_error vs i = Some v ->
    exists sj, frame s sj /\ fst (f t sj) = Ok v.
Proof.
  intros Hp Hf Hrun. unfold parallel_loop, bind in Hrun.
  destruct (run_tasks _ _ si) as [[done|e] s1] eqn:E; [|discriminate].
  injection Hrun as <- <-.
  apply (@run_tasks_spec _ _ s) in E; auto.
  - destruct E as [Hm Hin].
    assert (Hsome : forall i, (i < length l)%nat -> assoc i done <> None).
    { intros i Hi. apply In_assoc. rewrite Hm. now apply exec_order_lt. }
    split; [now apply collect_length|].
    intros i t v Ht Hv. apply collect_nth in Hv; [|exact Hsome].
    apply assoc_In, Hin in Hv. destruct Hv as (t' & sj & Ht' & Hfj & Hv).
    rewrite nth_error_map, Ht in Ht'. injection Ht' as <-. now exists sj.
  - intros t Ht. apply in_map_iff in Ht as (x & <- & _). apply Hp.
  - intros i Hi. rewrite length_map. now apply exec_order_lt in Hi.
Qed.


Lemma run_tasks_pure {A : Type} (tasks : list (M RNG A)) s :
  (forall t sj, In t tasks -> frame s sj -> exists a, t sj = (Ok a, sj)) ->
  forall ord si, frame s si -> exists done, run_tasks tasks ord si = (Ok done, si).
Proof.
  intros Hpure. induction ord as [|i ord IH]; simpl; intros si Hf.
  - now exists [].
  - destruct (nth_error tasks i) as [t|] eqn:Et; [|now apply IH].
    destruct (Hpure t si (nth_error_In _ _ Et) Hf) as [a Ha].
    destruct (IH si Hf) as [rest Hrest].
    exists ((i, a) :: rest). unfold bind. now rewrite Ha, Hrest.
Qed.

(** Tasks that leave the object alone commute: the loop is a [map]. *)
Lemma parallel_loop_pure {T A : Type} (f : T -> M RNG A) (h : T -> A)
    (l : list T) (n_jobs progress_bar : Z) s si :
  (forall t, preserving (f t)) ->
  (forall t sj, In t l -> frame s sj -> f t sj = (Ok (h t), sj)) ->
  frame s si ->
  parallel_loop sched f l n_jobs progress_bar si = (Ok (map h l), si).
Proof.
  intros Hp Hpure Hf.
  destruct (@run_tasks_pure _ (map f l) s) with (ord := exec_order sched n_jobs (length l)) (si := si)
    as [done Hdone]; auto.
  { intros t sj Ht Hsj. apply in_map_iff in Ht as (x & <- & Hx).
    exists (h x). now apply Hpure. }
  assert (Hrun : parallel_loop sched f l n_jobs progress_bar si
                 = (Ok (collect (length l) done), si)).
  { unfold parallel_loop, bind. now rewrite Hdone. }
  rewrite Hrun. f_equal. f_equal.
  destruct (parallel_loop_spec f l n_jobs progress_bar Hp Hf Hrun) as [Hlen Hnth].
  apply nth_error_ext_eq; [now rewrite length_map|].
  intros i a Ha. rewrite nth_error_map.
  destruct (nth_error l i) as [t|] eqn:Et.
  - destruct (Hnth i t a Et Ha) as (sj & Hsj & Hv).
    rewrite (Hpure t sj (nth_error_In _ _ Et) Hsj) in Hv. simpl in *. congruence.
  - apply nth_error_None in Et. assert (nth_error (collect (length l) done) i <> None) by congruence.
    apply nth_error_Some in H. lia.
Qed.

(** With one worker the loop is the plain [for] loop. *)

Lemma for_each_map {T A : Type} (f : T -> M RNG A) (l : list T) si :
  for_each f l si = for_each (fun t => t) (map f l) si.
Proof.
  revert si. induction l as [|t l IH]; intros si; simpl; [reflexivity|].
  unfold bind. destruct (f t si) as [[a|e] s1]; [|reflexivity].
  now rewrite IH.
Qed.

Lemma for_each_length {A : Type} (tasks : list (M RNG A)) :
  forall si vs sf,
    for_each (fun t => t) tasks si = (Ok vs, sf) -> length vs = length tasks.
Proof.
  induction tasks as [|t tasks IH]; simpl; intros si vs sf H.
  - unfold ret in H. now injection H as <- _.
  - unfold bind in H. destruct (t si) as [[a|e] s1]; [|discriminate].
    destruct (for_each (fun t => t) tasks s1) as [[rest|e] s2] eqn:E; [|discriminate].
    unfold ret in H. injection H as <- _. simpl. f_equal. eapply IH; eauto.
Qed.

Lemma run_tasks_in_order {A : Type} (tasks : list (M RNG A)) :
  forall (pre : list (M RNG A)) si,
    run_tasks (pre ++ tasks) (seq (length pre) (length tasks)) si
    = match for_each (fun t => t) tasks si with
      | (Ok vs, sf) => (Ok (combine (seq (length pre) (length tasks)) vs), sf)
      | (Raise e, sf) => (Raise e, sf)
      end.
Proof.
  induction tasks as [|t tasks IH]; intros pre si; [reflexivity|].
  cbn [length seq run_tasks for_each].
  rewrite nth_error_app2, Nat.sub_diag by lia. cbn [nth_error].
  unfold bind at 1 3. destruct (t si) as [[a|e] s1]; [|reflexivity].
  unfold bind at 1 2.
  replace (pre ++ t :: tasks) with ((pre ++ [t]) ++ tasks)
    by (now rewrite <- app_assoc).
  replace (S (length pre)) with (length (pre ++ [t]))
    by (rewrite length_app; simpl; lia).
  rewrite IH.
  destruct (for_each (fun t0 => t0) tasks s1) as [[vs|e] s2]; reflexivity.
Qed.

Lemma In_combine_seq {A : Type} (vs : list A) :
  forall (k n i : nat) (a : A),
    In (i, a) (combine (seq k n) vs) -> nth_error vs (i - k) = Some a.
Proof.
  induction vs as [|v vs IH]; intros k [|n] i a; simpl; try tauto.
  intros [H|H].
  - injection H as <- <-. now rewrite Nat.sub_diag.
  - assert (Hlt : (S k <= i)%nat).
    { apply in_combine_l, in_seq in H. lia. }
    apply IH in H. replace (i - k)%nat with (S (i - S k)) by lia. exact H.
Qed.

Lemma collect_combine_seq {A : Type} (vs : list A) :
  collect (length vs) (combine (seq 0 (length vs)) vs) = vs.
Proof.
  assert (Hsome : forall i, (i < length vs)%nat ->
            assoc i (combine (seq 0 (length vs)) vs) <> None).
  { intros i Hi. apply In_assoc.
    replace (map fst (combine (seq 0 (length vs)) vs)) with (seq 0 (length vs)).
    - apply in_seq. lia.
    - clear. generalize 0%nat. induction vs as [|v vs IH]; intros k; simpl;
        [reflexivity|]. now rewrite <- IH. }
  apply nth_error_ext_eq; [now apply collect_length|].
  intros i a Hi. apply collect_nth in Hi; [|exact Hsome].
  apply assoc_In, In_combine_seq in Hi. now rewrite Nat.sub_0_r in Hi.
Qed.

Lemma parallel_loop_sequential {T A : Type} (f : T -> M RNG A) (l : list T)
    (progress_bar : Z) si :
  parallel_loop sched f l 1 progress_bar si = for_each f l si.
Proof.
  unfold parallel_loop, bind, exec_order. cbn [Z.eqb Pos.eqb].
  rewrite for_each_map.
  pose proof (@run_tasks_in_order _ (map f l) [] si) as H.
  cbn [app length] in H. rewrite length_map in H. rewrite H.
  destruct (for_each (fun t => t) (map f l) si) as [[vs|e] sf] eqn:E; [|reflexivity].
  apply for_each_length in E. rewrite length_map in E.
  unfold ret. rewrite <- E. now rewrite collect_combine_seq.
Qed.

(** ** Properties of [individual] *)


(** What [individual] does once its arguments are resolved. *)
Lemma individual_resolved s si smp X y kw X_ y_ row :
  frame s si ->
  check_inputs (reference_of s X) y = Ok (X_, y_) ->
  sample_row X_ smp = Ok row ->
  exists f : Z -> M RNG Q,
    individual check_inputs sched smp X y kw si
    = parallel_loop sched f (range (length (feature_names_ s)))
        (n_jobs (params s))
        (match kw_verbose kw with Some v => v | None => verbose (params s) end) si /\
    (forall c, preserving (f c)) /\
    (forall c sj, frame s sj -> f c sj = call_measure (call_args s kw row X_ c) sj).
Proof.
  intros Hf Hc Hr.
  destruct Hf as (Ep & EX & Ey & Eq & En & Em).
  eexists. split; [|split].
  - unfold individual, bind at 1, get_self at 1.
    unfold reference_of in Hc. rewrite Eq, Hc. unfold bind at 1. simpl lift at 1.
    unfold ret at 1. cbv beta iota.
    unfold sample_row in Hr. unfold bind at 1.
    assert (Hs : (match smp with
                  | SInt i => bind (lift (getitem (fst (X_, y_)) i)) (fun r => ret (SArr1 r))
                  | _ => ret smp
                  end) si = (Ok row, si)).
    { destruct smp; try (injection Hr as <-; reflexivity).
      simpl fst. unfold bind. destruct (getitem X_ i); [|discriminate].
      injection Hr as <-. reflexivity. }
    rewrite Hs, En, Ep. reflexivity.
  - intros c. preserve.
  - intros c sj (Ep' & _ & _ & Eq' & _ & _). unfold bind, get_self.
    unfold call_args, resolved. simpl fst. now rewrite Eq', Ep'.
Qed.



Lemma individual_pure s si smp X y kw X_ y_ row mu :
  frame s si ->
  check_inputs (reference_of s X) y = Ok (X_, y_) ->
  sample_row X_ smp = Ok row ->
  measure_pure s mu ->
  individual check_inputs sched smp X y kw si
  = (Ok (map (fun c => mu (call_args s kw row X_ c))
           (range (length (feature_names_ s)))), si).
Proof.
  intros Hf Hc Hr Hmu.
  destruct (individual_resolved smp X kw Hf Hc Hr) as (f & Heq & Hp & Hcall).
  rewrite Heq. apply parallel_loop_pure with (s := s); auto.
  intros c sj _ Hsj. rewrite (Hcall c sj Hsj).
  destruct Hsj as (Ep & EX & Ey & Eq & En & Em).
  unfold call_measure. rewrite Em, Hmu. unfold set_rng. now destruct sj.
Qed.

(** ** Properties of [feature] *)

Lemma set_rng_set_rng s g g' : set_rng (set_rng s g) g' = set_rng s g'.
Proof. reflexivity. Qed.

Lemma set_rng_same s : set_rng s (_rng s) = s.
Proof. now destruct s. Qed.

Lemma for_each_measure_seq s kw (X_ : ndarray2) (c : Z) (rows : list ndarray1) :
  forall (k : nat) si,
    frame s si ->
    (forall j x, nth_error rows j = Some x -> nth_error (data X_) (k + j) = Some x) ->
    for_each
      (fun sample_idx =>
         bind (lift (getitem X_ sample_idx)) (fun row =>
         bind (@get_self RNG) (fun self' =>
         call_measure
           (mk_measure_args (SArr1 row) c (kw_set_cols_idx kw) X_ (qoi_ self')
              (resolved (kw_sample_size kw) (sample_size (params s))
                 (Z.of_nat (shape0 X_)))
              (resolved (kw_coalition_size kw) (coalition_size (params s))
                 (Z.of_nat (shape1 X_) - 1))
              (replace (params self'))))))
      (map Z.of_nat (seq k (length rows))) si
    = let r := measure_seq (measure_ s)
                 (map (fun x => call_args s kw (SArr1 x) X_ c) rows) (_rng si) in
      (fst r, set_rng si (snd r)).
Proof.
  induction rows as [|x rows IH]; intros k si Hf Hrows.
  - simpl. unfold ret. now rewrite set_rng_same.
  - cbn [length seq map for_each measure_seq].
    unfold bind at 1. unfold bind at 1.
    rewrite (@getitem_of_nat X_ k x).
    2:{ specialize (Hrows 0%nat x eq_refl). now rewrite Nat.add_0_r in Hrows. }
    cbn [lift ret]. unfold bind at 1, get_self at 1.
    pose proof Hf as (Ep & _ & _ & Eq & _ & Em).
    unfold call_measure at 1. rewrite Em, Eq, Ep.
    change (mk_measure_args (SArr1 x) c (kw_set_cols_idx kw) X_ (qoi_ s)
              (resolved (kw_sample_size kw) (sample_size (params s)) (Z.of_nat (shape0 X_)))
              (resolved (kw_coalition_size kw) (coalition_size (params s)) (Z.of_nat (shape1 X_) - 1))
              (replace (params s)))
      with (call_args s kw (SArr1 x) X_ c).
    destruct (measure_ s (call_args s kw (SArr1 x) X_ c) (_rng si)) as [[v|e] g]; [|reflexivity].
    unfold bind at 1.
    rewrite (IH (S k) (set_rng si g)).
    + cbn [_rng set_rng]. cbv zeta.
      destruct (measure_seq (measure_ s) _ g) as [[vs|e] g']; reflexivity.
    + eapply frame_trans; [exact Hf|apply frame_set_rng].
    + intros j y Hj. specialize (Hrows (S j) y Hj).
      now rewrite Nat.add_succ_r in Hrows.
Qed.

(** [feature] is the sequential run of the measure over the rows of the
    validated table, followed by [np.mean]. *)
Lemma feature_measure_seq s feat X y kw X_ y_ c :
  check_inputs X y = Ok (X_, y_) ->
  feature_col s feat = Ok c ->
  feature check_inputs feat X y kw s
  = match measure_seq (measure_ s)
            (map (fun x => call_args s kw (SArr1 x) X_ c) (data X_)) (_rng s) with
    | (Ok vs, g) => (Ok (np_mean vs), set_rng s g)
    | (Raise e, g) => (Raise e, set_rng s g)
    end.
Proof.
  intros Hc Hcol. unfold feature, bind at 1, get_self at 1.
  unfold bind at 1. rewrite Hc. cbn [lift ret fst].
  unfold bind at 1.
  assert (Hs : (match feat with
                | FStr name => lift (list_index (feature_names_ s) name)
                | FInt i => ret i
                end) s = (@Ok Z c, s)).
  { unfold feature_col in Hcol. destruct feat; rewrite ?Hcol; simpl.
    - reflexivity.
    - injection Hcol as <-. reflexivity. }
  rewrite Hs. unfold bind at 1.
  pose proof (@for_each_measure_seq s kw X_ c (data X_) 0%nat s (frame_refl s)
                (fun j x H => H)) as Hloop.
  unfold resolved, shape0 in Hloop. unfold range, shape0. rewrite Hloop. cbv zeta.
  destruct (measure_seq (measure_ s) _ (_rng s)) as [[vs|e] g]; reflexivity.
Qed.

Lemma measure_seq_length (m : measure_fn RNG) (l : list measure_args) :
  forall g vs g', measure_seq m l g = (Ok vs, g') -> length vs = length l.
Proof.
  induction l as [|a l IH]; simpl; intros g vs g' H.
  - now injection H as <- _.
  - destruct (m a g) as [[v|e] g1]; [|discriminate].
    destruct (measure_seq m l g1) as [[vs'|e] g2] eqn:E; [|discriminate].
    injection H as <- _. simpl. f_equal. eapply IH; eauto.
Qed.

Lemma measure_seq_pure (m : measure_fn RNG) (mu : measure_args -> Q)
    (l : list measure_args) (g : RNG) :
  (forall a g, m a g = (Ok (mu a), g)) ->
  measure_seq m l g = (Ok (map mu l), g).
Proof.
  intros H. induction l as [|a l IH]; simpl; [reflexivity|].
  now rewrite H, IH.
Qed.

(** ** Properties of [all] *)

Lemma map_range_data {A : Type} (X_ : ndarray2) (F : ndarray1 -> A) (d : A) :
  map (fun z => match getitem X_ z with Ok x => F x | Raise _ => d end)
    (range (shape0 X_))
  = map F (data X_).
Proof.
  apply nth_error_ext_eq.
  - now rewrite !length_map, range_length.
  - intros i a. rewrite !nth_error_map.
    destruct (nth_error (range (shape0 X_)) i) as [z|] eqn:E; [|discriminate].
    destruct (getitem_range X_ i E) as (x & Hx & Hg). rewrite Hx.
    cbn [option_map]. rewrite Hg. congruence.
Qed.

Lemma all_resolved s X y kw Xref X_ y_ :
  _X s = Some Xref ->
  check_inputs X y = Ok (X_, y_) ->
  kw_verbose kw = None ->
  all check_inputs sched X y kw s
  = parallel_loop sched
      (fun idx =>
         bind (lift (getitem X_ idx)) (fun row =>
         individual check_inputs sched (SArr1 row) (Some Xref) None
           (with_verbose 0 kw)))
      (range (shape0 X_)) (n_jobs (params s)) (verbose (params s)) s.
Proof.
  intros HX Hc Hv. unfold all, bind at 1, get_self at 1.
  rewrite HX, Hv. unfold bind at 1, ret at 1. unfold bind at 1.
  rewrite Hc. reflexivity.
Qed.

Lemma all_row_task s sj Xref (X_ : ndarray2) kw (i : nat) (z : Z) :
  frame s sj ->
  nth_error (range (shape0 X_)) i = Some z ->
  exists x,
    nth_error (data X_) i = Some x /\
    bind (lift (getitem X_ z)) (fun row =>
      individual check_inputs sched (SArr1 row) (Some Xref) None
        (with_verbose 0 kw)) sj
    = individual check_inputs sched (SArr1 x) (Some Xref) None (with_verbose 0 kw) sj.
Proof.
  intros Hf Hz. destruct (getitem_range X_ i Hz) as (x & Hx & Hg).
  exists x. split; [exact Hx|]. unfold bind at 1. now rewrite Hg.
Qed.


Lemma all_pure s X y kw Xref X_ y_ R_ yr mu :
  _X s = Some Xref ->
  check_inputs X y = Ok (X_, y_) ->
  check_inputs (Some Xref) None = Ok (R_, yr) ->
  kw_verbose kw = None ->
  measure_pure s mu ->
  all check_inputs sched X y kw s
  = (Ok (map (fun x => map (fun c => mu (call_args s kw (SArr1 x) R_ c))
                         (range (length (feature_names_ s))))
           (data X_)), s).
Proof.
  intros HX Hc Hr Hv Hmu.
  rewrite (@all_resolved s X y kw Xref X_ y_ HX Hc Hv).
  rewrite <- (map_range_data X_ _ []).
  apply parallel_loop_pure with (s := s).
  - intros t. preserve.
  - intros z sj Hz Hsj. apply In_nth_error in Hz as [i Hi].
    destruct (@all_row_task s sj Xref X_ kw i z Hsj Hi) as (x & Hx & Heq).
    rewrite Heq.
    destruct (getitem_range X_ i Hi) as (x' & Hx' & ->).
    assert (x' = x) by congruence. subst x'.
    apply (@individual_pure s sj (SArr1 x) (Some Xref) None (with_verbose 0 kw)
             R_ yr (SArr1 x) mu Hsj Hr eq_refl Hmu).
  - apply frame_refl.
Qed.

(** ** Calls of [individual] that agree *)

Lemma run_tasks_ext {A : Type} (tasks tasks' : list (M RNG A)) s :
  length tasks = length tasks' ->
  (forall i t t' sj, nth_error tasks i = Some t -> nth_error tasks' i = Some t' ->
     frame s sj -> t sj = t' sj) ->
  (forall t, In t tasks -> preserving t) ->
  forall ord si, frame s si -> run_tasks tasks ord si = run_tasks tasks' ord si.
Proof.
  intros Hlen Hext Hp. induction ord as [|i ord IH]; simpl; intros si Hf; [reflexivity|].
  destruct (nth_error tasks i) as [t|] eqn:Et, (nth_error tasks' i) as [t'|] eqn:Et'.
  - unfold bind. rewrite <- (Hext i t t' si Et Et' Hf).
    pose proof (Hp t (nth_error_In _ _ Et) si) as Hf1.
    destruct (t si) as [[a|e] s1]; [|reflexivity]. simpl in Hf1.
    now rewrite (IH s1 (frame_trans Hf Hf1)).
  - apply nth_error_None in Et'.
    assert (nth_error tasks i <> None) by congruence.
    apply nth_error_Some in H. lia.
  - apply nth_error_None in Et.
    assert (nth_error tasks' i <> None) by congruence.
    apply nth_error_Some in H. lia.
  - now apply IH.
Qed.

Lemma parallel_loop_ext {T A : Type} (f f' : T -> M RNG A) (l : list T)
    (n_jobs pb pb' : Z) s si :
  (forall t, preserving (f t)) ->
  (forall t sj, frame s sj -> f t sj = f' t sj) ->
  frame s si ->
  parallel_loop sched f l n_jobs pb si = parallel_loop sched f' l n_jobs pb' si.
Proof.
  intros Hp Hext Hf. unfold parallel_loop, bind.
  rewrite (@run_tasks_ext _ (map f l) (map f' l) s); auto.
  - now rewrite !length_map.
  - intros i t t' sj. rewrite !nth_error_map.
    destruct (nth_error l i) as [x|]; simpl; [|discriminate].
    intros [= <-] [= <-]. apply Hext.
  - intros t Ht. apply in_map_iff in Ht as (x & <- & _). apply Hp.
Qed.

(** [individual], case by case. *)
Lemma individual_cases s si smp X y kw :
  frame s si ->
  individual check_inputs sched smp X y kw si
  = match check_inputs (reference_of s X) y with
    | Raise e => (Raise e, si)
    | Ok Xy =>
        match sample_row (fst Xy) smp with
        | Raise e => (Raise e, si)
        | Ok row =>
            parallel_loop sched
              (fun c => call_measure (call_args s kw row (fst Xy) c))
              (range (length (feature_names_ s))) (n_jobs (params s)) 0 si
        end
    end.
Proof.
  intros Hf.
  destruct (check_inputs (reference_of s X) y) as [[X_ y_]|e] eqn:Hc.
  2:{ destruct Hf as (_ & _ & _ & Eq & _ & _).
      unfold individual, bind, get_self. unfold reference_of in Hc.
      now rewrite Eq, Hc. }
  cbn [fst].
  destruct (sample_row X_ smp) as [row|e] eqn:Hr.
  - destruct (individual_resolved smp X kw Hf Hc Hr) as (f & -> & Hp & Hcall).
    now apply parallel_loop_ext with (s := s).
  - destruct Hf as (_ & _ & _ & Eq & _ & _).
    unfold individual, bind at 1, get_self at 1.
    unfold reference_of in Hc. rewrite Eq, Hc.
    unfold bind at 1. cbn [lift]. unfold ret at 1. cbv beta iota.
    unfold bind at 1. unfold sample_row in Hr.
    destruct smp; try discriminate. cbn [fst]. unfold bind at 1.
    destruct (getitem X_ i); [discriminate|]. now injection Hr as <-.
Qed.


(** ** Properties of [pairwise] and [pairwise_set] *)



Lemma is_array_as_table (smp : sample) :
  is_array smp -> exists t, as_table smp = Ok t.
Proof. destruct smp; simpl; try tauto; intros _; eauto. Qed.


Lemma bind_ext {A B : Type} (c : M RNG A) (k k' : A -> M RNG B) si :
  (forall a sj, k a sj = k' a sj) -> bind c k si = bind c k' si.
Proof.
  intros H. unfold bind. destruct (c si) as [[a|e] sj]; [apply H|reflexivity].
Qed.



Lemma bind_never_returns {A B : Type} (c : M RNG A) (k : A -> M RNG B) si :
  (forall a sj vs sf, k a sj <> (Ok vs, sf)) ->
  forall vs sf, bind c k si <> (Ok vs, sf).
Proof.
  intros H vs sf. unfold bind. destruct (c si) as [[a|e] sj]; [apply H|discriminate].
Qed.

(** X8.  A call of [pairwise] that passes ["X"], ["sample_size"] or
    ["coalition_size"] never returns: the keyword is handed to [individual]
    twice. *)
Remark pairwise_rejects_overrides s smp1 smp2 kwX kw :
  kwX <> None \/ kw_sample_size kw <> None \/ kw_coalition_size kw <> None ->
  forall vs sf,
    pairwise check_inputs sched smp1 smp2 kwX kw s <> (Ok vs, sf).
Proof.
  intros H. unfold pairwise.
  apply bind_never_returns. intros self s0.
  apply bind_never_returns. intros a s1.
  apply bind_never_returns. intros b s2.
  apply bind_never_returns. intros t s3.
  apply bind_never_returns. intros c s4 vs sf.
  destruct kwX, (kw_sample_size kw), (kw_coalition_size kw);
    try discriminate.
  exfalso. destruct H as [H|[H|H]]; now apply H.
Qed.




(** ** The claims about the methods of a fitted session *)

(** C7.  Each of [individual], [feature], [all], [pairwise] and
    [pairwise_set] leaves the session state produced by [fit] as it was:
    the parameters, [_X], [_y], [qoi_], [feature_names_] and [measure_] have
    the same values after the call as before, whether the call returns or
    raises; only the generator may have advanced. *)
Theorem session_state_unchanged s :
  (forall smp X y kw,
     frame s (snd (individual check_inputs sched smp X y kw s))) /\
  (forall feat X y kw,
     frame s (snd (feature check_inputs feat X y kw s))) /\
  (forall X y kw,
     frame s (snd (all check_inputs sched X y kw s))) /\
  (forall smp1 smp2 kwX kw,
     frame s (snd (pairwise check_inputs sched smp1 smp2 kwX kw s))) /\
  (forall samples1 samples2 kwX kw,
     frame s (snd (pairwise_set check_inputs sched samples1 samples2 kwX kw s))).
Proof.
  split; [|split; [|split; [|split]]]; intros.
  - apply preserving_individual.
  - apply preserving_feature.
  - apply preserving_all.
  - apply preserving_pairwise.
  - apply preserving_pairwise_set.
Qed.



(** C1, as amended.  [feature] returns the arithmetic mean, over the rows of
    the validated table [X_], of the values the measure returns for each row
    and the requested column, computed with [X_] itself as the reference set
    and with the generator handed from row to row.  When moreover the
    measure does not use the generator and the table is the session's stored
    reference set, that mean is the column mean of the corresponding column
    of [all]. *)
Theorem feature_is_row_mean s feat X y kw X_ y_ c vs g :
  check_inputs X y = Ok (X_, y_) ->
  feature_col s feat = Ok c ->
  measure_seq (measure_ s)
    (map (fun x => call_args s kw (SArr1 x) X_ c) (data X_)) (_rng s) = (Ok vs, g) ->
  feature check_inputs feat X y kw s = (Ok (np_mean vs), set_rng s g) /\
  length vs = shape0 X_ /\
  (shape0 X_ <> 0%nat ->
   np_mean vs = Fin (Qsum vs / inject_Z (Z.of_nat (shape0 X_)))%Q) /\
  (forall mu Xref,
     measure_pure s mu ->
     _X s = Some Xref -> X = Some Xref -> y = None ->
     kw_verbose kw = None ->
     (0 <= c < Z.of_nat (length (feature_names_ s))) ->
     exists rows,
       all check_inputs sched X y kw s = (Ok rows, s) /\
       np_mean (column (Z.to_nat c) rows) = np_mean vs).
Proof.
  intros Hc Hcol Hseq.
  assert (Hlen : length vs = shape0 X_).
  { apply measure_seq_length in Hseq. rewrite length_map in Hseq. exact Hseq. }
  split; [|split; [exact Hlen|split]].
  - rewrite (@feature_measure_seq s feat X y kw X_ y_ c Hc Hcol). now rewrite Hseq.
  - intros Hne. rewrite <- Hlen. apply np_mean_arithmetic.
    destruct vs; [simpl in Hlen; congruence|discriminate].
  - intros mu Xref Hmu HX -> -> Hv Hrange.
    rewrite (@measure_seq_pure (measure_ s) mu _ (_rng s) Hmu) in Hseq.
    injection Hseq as <- _.
    eexists. split.
    + apply (@all_pure s (Some Xref) None kw Xref X_ y_ X_ y_ mu HX Hc Hc Hv Hmu).
    + f_equal. unfold column. rewrite !map_map. apply map_ext. intros x.
      assert (Hn : nth_error (range (length (feature_names_ s))) (Z.to_nat c)
                   = Some c).
      { unfold range. rewrite nth_error_map, nth_error_seq.
        destruct (Nat.ltb_spec (Z.to_nat c) (length (feature_names_ s))); [|lia].
        simpl. f_equal. lia. }
      erewrite nth_error_nth; [reflexivity|].
      rewrite nth_error_map, Hn. reflexivity.
Qed.





(** ** Further properties of the methods *)

Lemma get_self_bind {B : Type} (k : ShaRP RNG -> M RNG B) s :
  bind (@get_self RNG) k s = k s s.
Proof. reflexivity. Qed.

Lemma for_each_call_measure s (F : Z -> measure_args) (l : list Z) :
  forall si,
    frame s si ->
    for_each (fun c => call_measure (F c)) l si
    = let r := measure_seq (measure_ s) (map F l) (_rng si) in
      (fst r, set_rng si (snd r)).
Proof.
  induction l as [|c l IH]; intros si Hf.
  - simpl. unfold ret. now rewrite set_rng_same.
  - cbn [for_each map measure_seq]. unfold bind at 1.
    pose proof Hf as (_ & _ & _ & _ & _ & Em).
    unfold call_measure at 1. rewrite Em.
    destruct (measure_ s (F c) (_rng si)) as [[v|e] g]; [|reflexivity].
    unfold bind at 1.
    rewrite (IH (set_rng si g)) by (eapply frame_trans; [exact Hf|apply frame_set_rng]).
    cbn [_rng set_rng]. cbv zeta.
    destruct (measure_seq (measure_ s) (map F l) g) as [[vs|e] g']; reflexivity.
Qed.

Lemma individual_in_order s si smp X y kw X_ y_ row :
  frame s si ->
  n_jobs (params s) = 1 ->
  check_inputs (reference_of s X) y = Ok (X_, y_) ->
  sample_row X_ smp = Ok row ->
  individual check_inputs sched smp X y kw si
  = let r := measure_seq (measure_ s)
               (map (call_args s kw row X_) (range (length (feature_names_ s))))
               (_rng si) in
    (fst r, set_rng si (snd r)).
Proof.
  intros Hf Hn Hc Hr.
  rewrite (individual_cases smp X y kw Hf), Hc. cbn [fst]. rewrite Hr, Hn.
  rewrite parallel_loop_sequential.
  now apply for_each_call_measure.
Qed.

Lemma measure_seq_app (m : measure_fn RNG) (l1 l2 : list measure_args) :
  forall g,
    measure_seq m (l1 ++ l2) g
    = match measure_seq m l1 g with
      | (Ok v1, g1) =>
          match measure_seq m l2 g1 with
          | (Ok v2, g2) => (Ok (v1 ++ v2), g2)
          | (Raise e, g2) => (Raise e, g2)
          end
      | (Raise e, g1) => (Raise e, g1)
      end.
Proof.
  induction l1 as [|a l1 IH]; intros g; cbn [app measure_seq].
  - destruct (measure_seq m l2 g) as [[v2|e] g2]; reflexivity.
  - destruct (m a g) as [[v|e] g0]; [|reflexivity].
    rewrite IH.
    destruct (measure_seq m l1 g0) as [[v1|e] g1]; [|reflexivity].
    destruct (measure_seq m l2 g1) as [[v2|e] g2]; reflexivity.
Qed.

Lemma split_rows_app (m d : nat) (v1 v2 : list Q) :
  length v1 = d ->
  split_rows (S m) d (v1 ++ v2) = v1 :: split_rows m d v2.
Proof.
  intros H. cbn [split_rows]. subst d.
  rewrite firstn_app, Nat.sub_diag, firstn_all, firstn_O, app_nil_r.
  rewrite skipn_app, Nat.sub_diag, skipn_all. reflexivity.
Qed.

Lemma all_rows_in_order s kw Xref (X_ R_ : ndarray2) yr (rows : list ndarray1) :
  n_jobs (params s) = 1 ->
  check_inputs (Some Xref) None = Ok (R_, yr) ->
  forall (k : nat) si,
    frame s si ->
    (forall j x, nth_error rows j = Some x -> nth_error (data X_) (k + j) = Some x) ->
    for_each
      (fun idx =>
         bind (lift (getitem X_ idx)) (fun row =>
         individual check_inputs sched (SArr1 row) (Some Xref) None
           (with_verbose 0 kw)))
      (map Z.of_nat (seq k (length rows))) si
    = match measure_seq (measure_ s)
              (flat_map (fun x => map (call_args s kw (SArr1 x) R_)
                                    (range (length (feature_names_ s)))) rows)
              (_rng si) with
      | (Ok vs, g) =>
          (Ok (split_rows (length rows) (length (feature_names_ s)) vs),
           set_rng si g)
      | (Raise e, g) => (Raise e, set_rng si g)
      end.
Proof.
  intros Hn HR. induction rows as [|x rows IH]; intros k si Hf Hrows.
  - simpl. unfold ret. now rewrite set_rng_same.
  - cbn [length seq map for_each flat_map].
    unfold bind at 1. unfold bind at 1.
    rewrite (@getitem_of_nat X_ k x).
    2:{ specialize (Hrows 0%nat x eq_refl). now rewrite Nat.add_0_r in Hrows. }
    cbn [lift ret].
    rewrite (@individual_in_order s si (SArr1 x) (Some Xref) None
               (with_verbose 0 kw) R_ yr (SArr1 x) Hf Hn HR eq_refl).
    cbv zeta. rewrite measure_seq_app.
    change (call_args s (with_verbose 0 kw) (SArr1 x) R_)
      with (call_args s kw (SArr1 x) R_).
    destruct (measure_seq (measure_ s)
                (map (call_args s kw (SArr1 x) R_)
                   (range (length (feature_names_ s)))) (_rng si))
      as [[v1|e] g1] eqn:E1; cbn [fst snd]; [|reflexivity].
    unfold bind at 1.
    rewrite (IH (S k) (set_rng si g1)).
    + cbn [_rng set_rng].
      destruct (measure_seq (measure_ s) _ g1) as [[v2|e] g2]; [|reflexivity].
      unfold ret. rewrite split_rows_app; [reflexivity|].
      apply measure_seq_length in E1. now rewrite length_map, range_length in E1.
    + eapply frame_trans; [exact Hf|apply frame_set_rng].
    + intros j z Hj. specialize (Hrows (S j) z Hj).
      now rewrite Nat.add_succ_r in Hrows.
Qed.

(** X1.  With one worker ([n_jobs] = 1) [individual] calls the measure once
    per feature name, in index order, each call receiving the generator as
    the previous one left it; the first call that raises ends the run, the
    generator staying as that call left it. *)
Theorem individual_sequential s smp X y kw X_ y_ row :
  n_jobs (params s) = 1 ->
  check_inputs (reference_of s X) y = Ok (X_, y_) ->
  sample_row X_ smp = Ok row ->
  individual check_inputs sched smp X y kw s
  = match measure_seq (measure_ s)
            (map (call_args s kw row X_) (range (length (feature_names_ s))))
            (_rng s) with
    | (Ok vs, g) => (Ok vs, set_rng s g)
    | (Raise e, g) => (Raise e, set_rng s g)
    end.
Proof.
  intros Hn Hc Hr.
  rewrite (@individual_in_order s s smp X y kw X_ y_ row (frame_refl s) Hn Hc Hr).
  cbv zeta.
  destruct (measure_seq (measure_ s) _ (_rng s)) as [[vs|e] g]; reflexivity.
Qed.

(** X2.  With one worker [all] calls the measure in row-major order (row
    after row of the validated table, feature after feature), against the
    validated stored reference, with one thread of the generator through the
    whole matrix; the result is that run cut into rows. *)
Theorem all_sequential s X y kw Xref X_ y_ R_ yr :
  n_jobs (params s) = 1 ->
  _X s = Some Xref ->
  check_inputs X y = Ok (X_, y_) ->
  check_inputs (Some Xref) None = Ok (R_, yr) ->
  kw_verbose kw = None ->
  all check_inputs sched X y kw s
  = match measure_seq (measure_ s)
            (flat_map (fun x => map (call_args s kw (SArr1 x) R_)
                                  (range (length (feature_names_ s)))) (data X_))
            (_rng s) with
    | (Ok vs, g) =>
        (Ok (split_rows (shape0 X_) (length (feature_names_ s)) vs), set_rng s g)
    | (Raise e, g) => (Raise e, set_rng s g)
    end.
Proof.
  intros Hn HX Hc HR Hv.
  rewrite (@all_resolved s X y kw Xref X_ y_ HX Hc Hv), Hn.
  rewrite parallel_loop_sequential.
  apply (@all_rows_in_order s kw Xref X_ R_ yr (data X_) Hn HR 0%nat s
           (frame_refl s) (fun j x H => H)).
Qed.

(** X3.  A measure that does not draw from the generator gives, under every
    execution order and every number of workers, the vector of its values
    for the columns in index order, and the generator is left as it was. *)
Theorem individual_pure_any_order s smp X y kw X_ y_ row mu :
  check_inputs (reference_of s X) y = Ok (X_, y_) ->
  sample_row X_ smp = Ok row ->
  measure_pure s mu ->
  individual check_inputs sched smp X y kw s
  = (Ok (map (fun c => mu (call_args s kw row X_ c))
           (range (length (feature_names_ s)))), s).
Proof.
  intros Hc Hr Hmu.
  exact (@individual_pure s s smp X y kw X_ y_ row mu (frame_refl s) Hc Hr Hmu).
Qed.

(** X4.  An int sample stands for that row of the validated reference set
    (negative ints counting from the end): the call equals the call on the
    row itself. *)
Theorem individual_int_sample s (i : Z) X y kw X_ y_ r :
  check_inputs (reference_of s X) y = Ok (X_, y_) ->
  getitem X_ i = Ok r ->
  individual check_inputs sched (SInt i) X y kw s
  = individual check_inputs sched (SArr1 r) X y kw s /\
  (0 <= i -> nth_error (data X_) (Z.to_nat i) = Some r) /\
  (i < 0 -> nth_error (data X_) (Z.to_nat (i + Z.of_nat (shape0 X_))) = Some r).
Proof.
  intros Hc Hg. split; [|split].
  - rewrite !(individual_cases _ X y kw (frame_refl s)), Hc. cbn [fst sample_row].
    now rewrite Hg.
  - intros Hi. unfold getitem in Hg.
    destruct ((- Z.of_nat (shape0 X_) <=? i) && (i <? Z.of_nat (shape0 X_)));
      [|discriminate].
    destruct (Z.ltb_spec i 0); [lia|].
    destruct (nth_error (data X_) (Z.to_nat i)); [congruence|discriminate].
  - intros Hi. unfold getitem in Hg.
    destruct ((- Z.of_nat (shape0 X_) <=? i) && (i <? Z.of_nat (shape0 X_)));
      [|discriminate].
    destruct (Z.ltb_spec i 0); [|lia].
    destruct (nth_error (data X_) (Z.to_nat (i + Z.of_nat (shape0 X_))));
      [congruence|discriminate].
Qed.

(** X5.  An int sample outside [-m, m), [m] the number of rows of the
    validated reference set, makes [individual] raise [IndexError] before
    any call of the measure: the object, generator included, is as before. *)
Theorem individual_index_error s (i : Z) X y kw X_ y_ :
  check_inputs (reference_of s X) y = Ok (X_, y_) ->
  i < - Z.of_nat (shape0 X_) \/ Z.of_nat (shape0 X_) <= i ->
  individual check_inputs sched (SInt i) X y kw s = (Raise IndexError, s).
Proof.
  intros Hc Hi.
  rewrite (individual_cases _ X y kw (frame_refl s)), Hc. cbn [fst sample_row].
  unfold getitem.
  destruct (Z.leb_spec (- Z.of_nat (shape0 X_)) i),
           (Z.ltb_spec i (Z.of_nat (shape0 X_))); cbn [andb]; try reflexivity.
  lia.
Qed.

Lemma list_index_first (names : list string) (name : string) :
  In name names ->
  exists i,
    list_index names name = Ok (Z.of_nat i) /\
    nth_error names i = Some name /\
    forall j, (j < i)%nat -> nth_error names j <> Some name.
Proof.
  induction names as [|n names IH]; simpl; [tauto|]. intros Hin.
  destruct (String.eqb_spec n name) as [->|Hne].
  - exists 0%nat. split; [reflexivity|]. split; [reflexivity|]. intros j Hj. lia.
  - destruct IH as (i & Hi & Hnth & Hfirst); [destruct Hin; congruence|].
    exists (S i). rewrite Hi. split; [f_equal; lia|]. split; [exact Hnth|].
    intros [|j] Hj; simpl; [congruence|]. apply Hfirst. lia.
Qed.

Lemma list_index_missing (names : list string) (name : string) :
  ~ In name names -> list_index names name = Raise ValueError.
Proof.
  induction names as [|n names IH]; simpl; [reflexivity|]. intros Hin.
  destruct (String.eqb_spec n name) as [->|Hne]; [tauto|].
  rewrite IH; tauto.
Qed.

Lemma feature_same_col s feat feat' X y kw :
  feature_col s feat = feature_col s feat' ->
  feature check_inputs feat X y kw s = feature check_inputs feat' X y kw s.
Proof.
  intros H. unfold feature. rewrite !get_self_bind.
  apply bind_ext. intros Xy s1.
  assert (Hcol : forall f, (match f with
                            | FStr name => lift (list_index (feature_names_ s) name)
                            | FInt i => ret i
                            end : M RNG Z) = lift (feature_col s f)).
  { intros [name|i]; reflexivity. }
  rewrite !Hcol, H. reflexivity.
Qed.

(** X6.  Asking [feature] for a name is asking for the position of its first
    occurrence among the session's feature names. *)
Theorem feature_by_name s (name : string) X y kw :
  In name (feature_names_ s) ->
  exists i,
    nth_error (feature_names_ s) i = Some name /\
    (forall j, (j < i)%nat -> nth_error (feature_names_ s) j <> Some name) /\
    feature check_inputs (FStr name) X y kw s
    = feature check_inputs (FInt (Z.of_nat i)) X y kw s.
Proof.
  intros Hin. destruct (list_index_first _ _ Hin) as (i & Hi & Hnth & Hfirst).
  exists i. split; [exact Hnth|]. split; [exact Hfirst|].
  apply feature_same_col. simpl. exact Hi.
Qed.

(** X7.  Asking [feature] for a name the session does not know raises
    [ValueError] once validation has accepted the table; the measure is not
    called and the object is as before. *)
Theorem feature_unknown_name s (name : string) X y kw X_ y_ :
  check_inputs X y = Ok (X_, y_) ->
  ~ In name (feature_names_ s) ->
  feature check_inputs (FStr name) X y kw s = (Raise ValueError, s).
Proof.
  intros Hc Hin. unfold feature. rewrite get_self_bind.
  unfold bind at 1. rewrite Hc. cbn [lift ret].
  unfold bind at 1. now rewrite (list_index_missing _ _ Hin).
Qed.

(** X9.  [pairwise] never returns when the comparison sample is given by
    position (an int or a list of ints), with or without the ["X"]
    keyword. *)
Theorem pairwise_index_comparison s smp1 smp2 kwX kw :
  is_index smp2 ->
  forall vs sf,
    pairwise check_inputs sched smp1 smp2 kwX kw s <> (Ok vs, sf).
Proof.
  intros H2. destruct kwX as [X0|].
  - unfold pairwise.
    apply bind_never_returns. intros self s0.
    apply bind_never_returns. intros a s1.
    apply bind_never_returns. intros b s2.
    apply bind_never_returns. intros t s3.
    apply bind_never_returns. intros c s4 vs sf. discriminate.
  - intros vs sf. unfold pairwise. rewrite get_self_bind.
    unfold bind at 1, ret at 1. unfold bind at 1, ret at 1.
    unfold bind at 1.
    destruct smp2; simpl in H2; try tauto; discriminate.
Qed.

(** X10.  Without the ["X"] keyword, an int as first sample makes [pairwise]
    raise [AttributeError] when neither the call nor the session fixes the
    coalition size. *)
Theorem pairwise_int_sample s (i : Z) smp2 kw :
  is_array smp2 ->
  kw_coalition_size kw = None ->
  coalition_size (params s) = None ->
  pairwise check_inputs sched (SInt i) smp2 None kw s = (Raise AttributeError, s).
Proof.
  intros H2 Hk Hs. unfold pairwise. rewrite get_self_bind.
  unfold bind at 1, ret at 1. unfold bind at 1, ret at 1.
  destruct (is_array_as_table smp2 H2) as [t Ht].
  unfold bind at 1. rewrite Ht. cbn [lift ret].
  rewrite Hk, Hs. reflexivity.
Qed.

Lemma parallel_loop_nil {T A : Type} (f : T -> M RNG A) (n_jobs pb : Z) si :
  parallel_loop sched f [] n_jobs pb si = (Ok [], si).
Proof.
  unfold parallel_loop, bind. cbn [map length].
  assert (H : exec_order sched n_jobs 0 = []).
  { apply Permutation_nil. apply Permutation_sym. apply exec_order_perm. }
  rewrite H. reflexivity.
Qed.

Lemma parallel_loop_all_raise {T A : Type} (f : T -> M RNG A) (l : list T)
    (e : exn) (n_jobs pb : Z) si :
  (forall t sj, In t l -> f t sj = (Raise e, sj)) ->
  l <> [] ->
  parallel_loop sched f l n_jobs pb si = (Raise e, si).
Proof.
  intros Hraise Hne. unfold parallel_loop, bind.
  destruct (exec_order sched n_jobs (length l)) as [|i ord] eqn:E.
  - exfalso. pose proof (exec_order_perm n_jobs (length l)) as Hp.
    rewrite E in Hp. apply Permutation_nil in Hp.
    destruct l; [congruence|discriminate].
  - assert (Hi : (i < length l)%nat).
    { apply (exec_order_lt n_jobs). rewrite E. now left. }
    cbn [run_tasks]. rewrite nth_error_map.
    destruct (nth_error l i) as [t|] eqn:Et.
    + cbn [option_map]. unfold bind.
      now rewrite (Hraise t si (nth_error_In _ _ Et)).
    + apply nth_error_None in Et. lia.
Qed.

(** X11.  [all] called with the ["verbose"] keyword raises [TypeError] as
    soon as the table has a row (the keyword reaches [individual] twice);
    on a table without rows it returns the empty matrix.  The object is as
    before in both cases. *)
Theorem all_rejects_verbose s X y kw (v : Z) Xref X_ y_ :
  _X s = Some Xref ->
  check_inputs X y = Ok (X_, y_) ->
  kw_verbose kw = Some v ->
  all check_inputs sched X y kw s
  = match data X_ with
    | [] => (Ok [], s)
    | _ :: _ => (Raise TypeError, s)
    end.
Proof.
  intros HX Hc Hv. unfold all. rewrite get_self_bind, HX.
  unfold bind at 1, ret at 1. unfold bind at 1. rewrite Hc, Hv. cbn [lift ret fst].
  destruct (data X_) as [|x rows] eqn:Ed.
  - unfold range, shape0. rewrite Ed. apply parallel_loop_nil.
  - apply parallel_loop_all_raise.
    + intros z sj Hz. apply In_nth_error in Hz as [i Hi].
      destruct (getitem_range X_ i Hi) as (r & _ & Hg).
      unfold bind. now rewrite Hg.
    + unfold range, shape0. rewrite Ed. discriminate.
Qed.

(** X12.  [pairwise_set] called with the ["verbose"] keyword raises
    [TypeError] as soon as there is a pair (the keyword reaches [pairwise]
    twice); without a pair it returns the empty matrix.  The object is as
    before in both cases. *)
Theorem pairwise_set_rejects_verbose s samples1 samples2 kwX kw (v : Z) :
  kw_verbose kw = Some v ->
  pairwise_set check_inputs sched samples1 samples2 kwX kw s
  = match combine samples1 samples2 with
    | [] => (Ok [], s)
    | _ :: _ => (Raise TypeError, s)
    end.
Proof.
  intros Hv. unfold pairwise_set. rewrite get_self_bind, Hv.
  destruct (combine samples1 samples2) as [|p ps].
  - apply parallel_loop_nil.
  - apply parallel_loop_all_raise; [reflexivity|discriminate].
Qed.

(** X14.  On a validated table without rows [feature] calls no measure and
    returns [np.mean] of the empty list, [NaN]; the object is as before. *)
Theorem feature_empty_table s feat X y kw X_ y_ c :
  check_inputs X y = Ok (X_, y_) ->
  feature_col s feat = Ok c ->
  data X_ = [] ->
  feature check_inputs feat X y kw s = (Ok NaN, s).
Proof.
  intros Hc Hcol Hd.
  rewrite (@feature_measure_seq s feat X y kw X_ y_ c Hc Hcol), Hd.
  cbn [map measure_seq np_mean]. now rewrite set_rng_same.
Qed.

End Properties.

(** ** The claims about [fit] *)

Section Fitting.

Variable RNG : Type.
Variable check_inputs :
  option ndarray2 -> option ndarray1 -> result (ndarray2 * option ndarray1).
Variable check_feature_names : ndarray2 -> list string.
Variable check_measure : string -> result (measure_fn RNG).
Variable seed_rng : Z -> RNG.


Lemma bind_get_self {B : Type} (k : ShaRP RNG -> M RNG B) (s : ShaRP RNG) :
  bind (@get_self RNG) k s = k s s.
Proof. reflexivity. Qed.





(** X13.  On a session fitted with a quantity-of-interest object, the
    object is stored as it is; [individual] called without [X] explains
    against the object's own [X], whereas the table stored by [fit] (the one
    [all] explains against) is the validated table passed to [fit]. *)
Theorem fit_object_reference p X0 y0 entropy q (s : ShaRP RNG)
    (sch : scheduler) smp y kw :
  qoi p = QoiObj q ->
  fit check_inputs check_feature_names check_measure seed_rng p X0 y0 entropy
  = Ok s ->
  qoi_ s = q /\
  (exists X_ y_, check_inputs (Some X0) y0 = Ok (X_, y_) /\ _X s = Some X_) /\
  individual check_inputs sch smp None y kw s
  = individual check_inputs sch smp (Some (qoi_X q)) y kw s.
Proof.
  intros Hq Hfit. unfold fit in Hfit.
  destruct (check_inputs (Some X0) y0) as [[X_ y_]|e] eqn:Hc; [|discriminate].
  rewrite Hq in Hfit.
  destruct (check_measure (measure p)) as [m|e]; [|discriminate].
  injection Hfit as <-. cbn [qoi_ _X].
  split; [reflexivity|]. split; [now exists X_, y_|].
  unfold individual. rewrite !bind_get_self. reflexivity.
Qed.

End Fitting.

(** * The instance, exercised *)

Module Instances.

Import Example.

Local Open Scope string_scope.

(** The sessions of the instance are what [fit] returns. *)
Example fit_session :
  fit check_inputs check_feature_names check_measure seed_rng
    (params_of "set" None 1) X_fit None 0
  = Ok session.
Proof. reflexivity. Qed.

Example fit_parallel_session :
  fit check_inputs check_feature_names check_measure seed_rng
    (params_of "shapley" None 2) X_fit None 0
  = Ok parallel_session.
Proof. reflexivity. Qed.

Example fit_sized_session :
  fit check_inputs check_feature_names check_measure seed_rng
    (params_of "set" (Some 5) 1) X_fit None 0
  = Ok sized_session.
Proof. reflexivity. Qed.







(** [feature] on the reference set itself, with the measure that does not
    draw: the mean of the rows' values, and the column mean of [all]. *)
Lemma feature_is_row_mean_witness :
  check_inputs (Some X_fit) None = Ok (X_fit, None) /\
  feature_col session (FInt 0) = Ok 0 /\
  measure_seq (measure_ session)
    (map (fun x => call_args session no_kwargs (SArr1 x) X_fit 0) (data X_fit))
    (_rng session) = (Ok [-2 # 2; 2 # 2]%Q, 7) /\
  feature check_inputs (FInt 0) (Some X_fit) None no_kwargs session
  = (Ok (np_mean [-2 # 2; 2 # 2]%Q), set_rng session 7) /\
  exists rows,
    all check_inputs sequential (Some X_fit) None no_kwargs session
    = (Ok rows, session) /\
    np_mean (column 0 rows) = np_mean [-2 # 2; 2 # 2]%Q.
Proof.
  split; [reflexivity|]. split; [reflexivity|]. split; [reflexivity|].
  destruct (@feature_is_row_mean Z check_inputs sequential session (FInt 0)
              (Some X_fit) None no_kwargs X_fit None 0 [-2 # 2; 2 # 2]%Q 7
              eq_refl eq_refl eq_refl)
    as (Hrun & _ & _ & Hall).
  split; [exact Hrun|].
  apply (Hall centred_value X_fit); try reflexivity.
  - intros a g. reflexivity.
  - simpl. lia.
Defined.







(** C1, as stated, fails: on a table other than the session's reference set,
    [feature] is the mean of values computed against that table (here 0),
    the column of [all] the mean of values computed against the stored
    reference set (here 4). *)
Lemma feature_differs_from_all_column :
  exists q rows q',
    fst (feature check_inputs (FInt 0) (Some X_new) None no_kwargs session)
    = Ok (Fin q) /\
    fst (all check_inputs sequential (Some X_new) None no_kwargs session)
    = Ok rows /\
    np_mean (column 0 rows) = Fin q' /\
    (q == 0)%Q /\ (q' == 4)%Q /\ ~ (q == q')%Q.
Proof.
  eexists _, _, _.
  split; [vm_compute; reflexivity|].
  split; [vm_compute; reflexivity|].
  split; [vm_compute; reflexivity|].
  split; [reflexivity|]. split; [reflexivity|].
  intros H. vm_compute in H. discriminate H.
Qed.


End Instances.

(** * The further properties, exercised *)

Module MoreInstances.

Import Example.

Local Open Scope string_scope.

(** One worker, the measure that draws, the scheduler asked for the reverse
    order: the draws are 7 then 8. *)
Lemma individual_sequential_witness :
  n_jobs (params (session_of "shapley" jittered None 1)) = 1 /\
  check_inputs (reference_of (session_of "shapley" jittered None 1) None) None
  = Ok (X_fit, None) /\
  sample_row X_fit (SInt 1) = Ok (SArr1 [2; 5]%Q) /\
  individual check_inputs reversed (SInt 1) None None no_kwargs
    (session_of "shapley" jittered None 1)
  = (Ok [16 # 2; 20 # 2]%Q, set_rng (session_of "shapley" jittered None 1) 9).
Proof.
  split; [reflexivity|]. split; [reflexivity|]. split; [reflexivity|].
  rewrite (@individual_sequential Z check_inputs reversed
             (session_of "shapley" jittered None 1) (SInt 1) None None no_kwargs
             X_fit None (SArr1 [2; 5]%Q) eq_refl eq_refl eq_refl).
  reflexivity.
Defined.

Lemma all_sequential_witness :
  n_jobs (params (session_of "shapley" jittered None 1)) = 1 /\
  _X (session_of "shapley" jittered None 1) = Some X_fit /\
  check_inputs (Some X_new) None = Ok (X_new, None) /\
  check_inputs (Some X_fit) None = Ok (X_fit, None) /\
  kw_verbose no_kwargs = None /\
  all check_inputs reversed (Some X_new) None no_kwargs
    (session_of "shapley" jittered None 1)
  = (Ok [[20 # 2; 10 # 2]; [28 # 2; 18 # 2]]%Q,
     set_rng (session_of "shapley" jittered None 1) 11).
Proof.
  repeat (split; [reflexivity|]).
  rewrite (@all_sequential Z check_inputs reversed
             (session_of "shapley" jittered None 1) (Some X_new) None no_kwargs
             X_fit X_new None X_fit None eq_refl eq_refl eq_refl eq_refl eq_refl).
  reflexivity.
Defined.

(** Two workers, reverse order, the measure that does not draw. *)
Lemma individual_pure_any_order_witness :
  check_inputs (reference_of (session_of "set" centred None 2) None) None
  = Ok (X_fit, None) /\
  sample_row X_fit (SInt 1) = Ok (SArr1 [2; 5]%Q) /\
  measure_pure (session_of "set" centred None 2) centred_value /\
  individual check_inputs reversed (SInt 1) None None no_kwargs
    (session_of "set" centred None 2)
  = (Ok (map (fun c => centred_value
                         (call_args (session_of "set" centred None 2) no_kwargs
                            (SArr1 [2; 5]%Q) X_fit c)) [0; 1]),
     session_of "set" centred None 2).
Proof.
  assert (Hmu : measure_pure (session_of "set" centred None 2) centred_value)
    by (intros a g; reflexivity).
  split; [reflexivity|]. split; [reflexivity|]. split; [exact Hmu|].
  apply (@individual_pure_any_order Z check_inputs reversed
           (session_of "set" centred None 2) (SInt 1) None None no_kwargs
           X_fit None (SArr1 [2; 5]%Q) centred_value eq_refl eq_refl Hmu).
Defined.

(** The sample -1 is the last row. *)
Lemma individual_int_sample_witness :
  check_inputs (reference_of session None) None = Ok (X_fit, None) /\
  getitem X_fit (-1) = Ok [2; 5]%Q /\
  individual check_inputs sequential (SInt (-1)) None None no_kwargs session
  = individual check_inputs sequential (SArr1 [2; 5]%Q) None None no_kwargs session.
Proof.
  split; [reflexivity|]. split; [reflexivity|].
  apply (@individual_int_sample Z check_inputs sequential session (-1) None None
           no_kwargs X_fit None [2; 5]%Q eq_refl eq_refl).
Defined.

Lemma individual_index_error_witness :
  check_inputs (reference_of session None) None = Ok (X_fit, None) /\
  (2 < - Z.of_nat (shape0 X_fit) \/ Z.of_nat (shape0 X_fit) <= 2) /\
  individual check_inputs sequential (SInt 2) None None no_kwargs session
  = (Raise IndexError, session).
Proof.
  assert (H : 2 < - Z.of_nat (shape0 X_fit) \/ Z.of_nat (shape0 X_fit) <= 2)
    by (right; simpl; lia).
  split; [reflexivity|]. split; [exact H|].
  apply (@individual_index_error Z check_inputs sequential session 2 None None
           no_kwargs X_fit None eq_refl H).
Defined.

Lemma feature_by_name_witness :
  In "b" (feature_names_ session) /\
  exists i,
    nth_error (feature_names_ session) i = Some "b" /\
    feature check_inputs (FStr "b") (Some X_new) None no_kwargs session
    = feature check_inputs (FInt (Z.of_nat i)) (Some X_new) None no_kwargs session.
Proof.
  assert (H : In "b" (feature_names_ session)) by (simpl; auto).
  split; [exact H|].
  destruct (@feature_by_name Z check_inputs session "b" (Some X_new) None
              no_kwargs H) as (i & Hnth & _ & Heq).
  exists i. split; [exact Hnth|exact Heq].
Defined.

Lemma feature_unknown_name_witness :
  check_inputs (Some X_new) None = Ok (X_new, None) /\
  ~ In "z" (feature_names_ session) /\
  feature check_inputs (FStr "z") (Some X_new) None no_kwargs session
  = (Raise ValueError, session).
Proof.
  assert (H : ~ In "z" (feature_names_ session)).
  { simpl. intros [H|[H|[]]]; discriminate H. }
  split; [reflexivity|]. split; [exact H|].
  apply (@feature_unknown_name Z check_inputs session "z" (Some X_new) None
           no_kwargs X_new None eq_refl H).
Defined.

(** Samples given by position together with the table they index. *)
Lemma pairwise_rejects_overrides_witness :
  (Some X_fit <> None \/ kw_sample_size no_kwargs <> None \/
   kw_coalition_size no_kwargs <> None) /\
  forall vs sf,
    pairwise check_inputs sequential (SInt 0) (SInt 1) (Some X_fit) no_kwargs
      session <> (Ok vs, sf).
Proof.
  assert (H : Some X_fit <> None \/ kw_sample_size no_kwargs <> None \/
              kw_coalition_size no_kwargs <> None)
    by (left; discriminate).
  split; [exact H|].
  apply (@pairwise_rejects_overrides Z check_inputs sequential session (SInt 0)
           (SInt 1) (Some X_fit) no_kwargs H).
Defined.

Lemma pairwise_index_comparison_witness :
  is_index (SInt 1) /\
  forall vs sf,
    pairwise check_inputs sequential (SArr1 [4; 0]%Q) (SInt 1) None no_kwargs
      session <> (Ok vs, sf).
Proof.
  split; [exact I|].
  apply (@pairwise_index_comparison Z check_inputs sequential session
           (SArr1 [4; 0]%Q) (SInt 1) None no_kwargs I).
Defined.

Lemma pairwise_int_sample_witness :
  is_array (SArr1 [6; 2]%Q) /\
  kw_coalition_size no_kwargs = None /\
  coalition_size (params session) = None /\
  pairwise check_inputs sequential (SInt 0) (SArr1 [6; 2]%Q) None no_kwargs session
  = (Raise AttributeError, session).
Proof.
  split; [exact I|]. split; [reflexivity|]. split; [reflexivity|].
  apply (@pairwise_int_sample Z check_inputs sequential session 0
           (SArr1 [6; 2]%Q) no_kwargs I eq_refl eq_refl).
Defined.

Lemma all_rejects_verbose_witness :
  _X session = Some X_fit /\
  check_inputs (Some X_new) None = Ok (X_new, None) /\
  kw_verbose (with_verbose 1 no_kwargs) = Some 1 /\
  all check_inputs sequential (Some X_new) None (with_verbose 1 no_kwargs) session
  = (Raise TypeError, session).
Proof.
  repeat (split; [reflexivity|]).
  apply (@all_rejects_verbose Z check_inputs sequential session (Some X_new) None
           (with_verbose 1 no_kwargs) 1 X_fit X_new None eq_refl eq_refl eq_refl).
Defined.

Lemma pairwise_set_rejects_verbose_witness :
  kw_verbose (with_verbose 1 no_kwargs) = Some 1 /\
  pairwise_set check_inputs sequential [SArr1 [4; 0]%Q] [SArr1 [6; 2]%Q] None
    (with_verbose 1 no_kwargs) session
  = (Raise TypeError, session).
Proof.
  split; [reflexivity|].
  apply (@pairwise_set_rejects_verbose Z check_inputs sequential session
           [SArr1 [4; 0]%Q] [SArr1 [6; 2]%Q] None (with_verbose 1 no_kwargs) 1
           eq_refl).
Defined.

(** A session fitted on [X_fit] with a quantity-of-interest object that
    carries [X_new]. *)
Lemma fit_object_reference_witness :
  qoi (mk_Params (QoiObj (mk_QoI ScoreQoI None X_new)) None "set" None None
         false (Some 7) 1 0)
  = QoiObj (mk_QoI ScoreQoI None X_new) /\
  fit check_inputs check_feature_names check_measure seed_rng
    (mk_Params (QoiObj (mk_QoI ScoreQoI None X_new)) None "set" None None
       false (Some 7) 1 0) X_fit None 0
  = Ok (mk_ShaRP
          (mk_Params (QoiObj (mk_QoI ScoreQoI None X_new)) None "set" None None
             false (Some 7) 1 0)
          (Some X_fit) None 7 (mk_QoI ScoreQoI None X_new) ["a"; "b"] centred) /\
  individual check_inputs sequential (SInt 0) None None no_kwargs
    (mk_ShaRP
       (mk_Params (QoiObj (mk_QoI ScoreQoI None X_new)) None "set" None None
          false (Some 7) 1 0)
       (Some X_fit) None 7 (mk_QoI ScoreQoI None X_new) ["a"; "b"] centred)
  = individual check_inputs sequential (SInt 0) (Some X_new) None no_kwargs
      (mk_ShaRP
         (mk_Params (QoiObj (mk_QoI ScoreQoI None X_new)) None "set" None None
            false (Some 7) 1 0)
         (Some X_fit) None 7 (mk_QoI ScoreQoI None X_new) ["a"; "b"] centred).
Proof.
  split; [reflexivity|]. split; [reflexivity|].
  apply (@fit_object_reference Z check_inputs check_feature_names check_measure
           seed_rng
           (mk_Params (QoiObj (mk_QoI ScoreQoI None X_new)) None "set" None None
              false (Some 7) 1 0)
           X_fit None 0 (mk_QoI ScoreQoI None X_new) _ sequential (SInt 0) None
           no_kwargs eq_refl eq_refl).
Defined.

Lemma feature_empty_table_witness :
  check_inputs (Some (mk_ndarray2 2 [])) None = Ok (mk_ndarray2 2 [], None) /\
  feature_col session (FInt 0) = Ok 0 /\
  data (mk_ndarray2 2 []) = [] /\
  feature check_inputs (FInt 0) (Some (mk_ndarray2 2 [])) None no_kwargs session
  = (Ok NaN, session).
Proof.
  repeat (split; [reflexivity|]).
  apply (@feature_empty_table Z check_inputs session (FInt 0)
           (Some (mk_ndarray2 2 [])) None no_kwargs (mk_ndarray2 2 []) None 0
           eq_refl eq_refl eq_refl).
Defined.

End MoreInstances.
